(** * Table denylist and statement classification of mcp-server-mysql

    A shallow embedding of [src/db/utils.ts]: identifier normalisation,
    the structural table-reference extractor, the denylist policy engine,
    the schema heuristic and the statement classifier, followed by the
    read-only executor of [src/db/index.ts] and the properties the
    specification states about them.

    Conventions of the embedding.
    - A JavaScript string is a [string] whose characters are code units
      below 256 (Latin-1).  That range is closed under the three string
      operations the module uses (removing backticks, [trim],
      [toLowerCase]), so the operations are modelled exactly on it.
    - A value thrown by JavaScript is a [JsError] carrying its message;
      a function that may throw returns a [Result].
    - [node-sql-parser] is an external library: its [astify] is a field
      of the [Scope] the functions of the module run in. *)

From Stdlib Require Import Ascii String NArith.
From stdpp Require Import base tactics option list gmap strings.

Set Warnings "-register-all".

(** ** JavaScript values *)

(** [string | undefined | null], the type of an optional string argument. *)
Inductive MaybeStr : Type :=
  | MUndefined
  | MNull
  | MStr (s : string).

(** The values a syntax tree is made of.  An object is the list of its
    own enumerable properties in [Object.values] order.  Numbers are never
    inspected by the code below. *)
Inductive JsVal : Type :=
  | JUndefined
  | JNull
  | JBool (b : bool)
  | JNum (n : Z)
  | JStr (s : string)
  | JArr (items : list JsVal)
  | JObj (fields : list (string * JsVal)).

Record JsError : Type := Error { message : string }.

Inductive Result (A : Type) : Type :=
  | Ok (a : A)
  | Throw (e : JsError).
Arguments Ok {A} a.
Arguments Throw {A} e.

(** Truthiness of a string: only the empty string is falsy. *)
Definition truthyStr (s : string) : bool :=
  match s with
  | EmptyString => false
  | String _ _ => true
  end.

(** Truthiness of [string | undefined]. *)
Definition truthyOpt (o : option string) : bool :=
  match o with
  | Some s => truthyStr s
  | None => false
  end.

(** Truthiness of a value ([!node] is its negation). *)
Definition truthy (v : JsVal) : bool :=
  match v with
  | JUndefined | JNull => false
  | JBool b => b
  | JNum n => negb (n =? 0)%Z
  | JStr s => truthyStr s
  | JArr _ | JObj _ => true
  end.

(** [node[key]] on an object given by its property list. *)
Fixpoint getProp (key : string) (fields : list (string * JsVal)) : JsVal :=
  match fields with
  | [] => JUndefined
  | (k, v) :: rest => if String.eqb k key then v else getProp key rest
  end.

(** ** Characters and the string operations of [normalizeIdent] *)

Definition code (c : ascii) : N := N_of_ascii c.

Definition isBacktick (c : ascii) : bool := (code c =? 96)%N.

(** White space and line terminators of ECMAScript below 256:
    TAB, LF, VT, FF, CR, SP and NBSP. *)
Definition isWhiteSpace (c : ascii) : bool :=
  let n := code c in
  ((9 <=? n)%N && (n <=? 13)%N) || (n =? 32)%N || (n =? 160)%N.

(** Unicode lower-casing below 256: A-Z and the Latin-1 capitals
    U+00C0..U+00DE except the multiplication sign U+00D7. *)
Definition toLowerChar (c : ascii) : ascii :=
  let n := code c in
  if ((65 <=? n)%N && (n <=? 90)%N)
     || ((192 <=? n)%N && (n <=? 222)%N && negb (n =? 215)%N)
  then ascii_of_N (n + 32)
  else c.

(** [s.replace(/`/g, "")] *)
Fixpoint removeBackticks (s : string) : string :=
  match s with
  | EmptyString => EmptyString
  | String c rest =>
      if isBacktick c then removeBackticks rest
      else String c (removeBackticks rest)
  end.

Fixpoint trimStart (s : string) : string :=
  match s with
  | EmptyString => EmptyString
  | String c rest => if isWhiteSpace c then trimStart rest else s
  end.

Fixpoint trimEnd (s : string) : string :=
  match s with
  | EmptyString => EmptyString
  | String c rest =>
      match trimEnd rest with
      | EmptyString => if isWhiteSpace c then EmptyString else String c EmptyString
      | kept => String c kept
      end
  end.

(** [s.trim()] *)
Definition trim (s : string) : string := trimEnd (trimStart s).

(** [s.toLowerCase()] *)
Fixpoint toLowerCase (s : string) : string :=
  match s with
  | EmptyString => EmptyString
  | String c rest => String (toLowerChar c) (toLowerCase rest)
  end.

(** [normalizeIdent], utils.ts lines 9-12.  The result may be the empty
    string (for a part made of backticks and white space only). *)
Definition normalizeIdent (part : MaybeStr) : option string :=
  match part with
  | MUndefined | MNull => None
  | MStr s =>
      if negb (truthyStr s) then None
      else Some (toLowerCase (trim (removeBackticks s)))
  end.

(** ** Referenced tables *)

Record ReferencedTable : Type := mkRef { schema : option string; table : string }.

#[global] Instance ReferencedTable_eq_dec : EqDecision ReferencedTable.
Proof. solve_decision. Defined.

(** [t.schema || ""] *)
Definition schemaOrEmpty (t : ReferencedTable) : string :=
  match schema t with
  | Some s => if truthyStr s then s else ""
  | None => ""
  end.

(** The de-duplication key [`${t.schema || ""}.${t.table}`]. *)
Definition refKey (t : ReferencedTable) : string :=
  schemaOrEmpty t +:+ "." +:+ table t.

(** What one object node pushes on [out] (lines 42-51). *)
Definition ownReference (fields : list (string * JsVal)) : list ReferencedTable :=
  match getProp "table" fields with
  | JStr maybeTable =>
      match normalizeIdent (MStr maybeTable) with
      | Some tbl =>
          if truthyStr tbl then
            let sch :=
              match getProp "db" fields with
              | JStr maybeDb => normalizeIdent (MStr maybeDb)
              | _ => None
              end in
            [mkRef sch tbl]
          else []
      | None => []
      end
  | _ => []
  end.

(** The closure [visit] (lines 30-58); [out] is the array it pushes on. *)
Fixpoint visit (node : JsVal) (out : list ReferencedTable) : list ReferencedTable :=
  if negb (truthy node) then out
  else
    match node with
    | JArr items =>
        (fix each (ns : list JsVal) (out : list ReferencedTable) :=
           match ns with
           | [] => out
           | n :: ns' => each ns' (visit n out)
           end) items out
    | JObj fields =>
        (fix values (fs : list (string * JsVal)) (out : list ReferencedTable) :=
           match fs with
           | [] => out
           | (_, v) :: fs' => values fs' (visit v out)
           end) fields (out ++ ownReference fields)
    | _ => out
    end.

(** The de-duplicating [filter] (lines 62-68); [seen] is the [Set]. *)
Fixpoint dedupe (seen : gset string) (out : list ReferencedTable) : list ReferencedTable :=
  match out with
  | [] => []
  | t :: rest =>
      let key := refKey t in
      if bool_decide (key ∈ seen) then dedupe seen rest
      else t :: dedupe ({[key]} ∪ seen) rest
  end.

Definition getReferencedTablesFromAst (ast : JsVal) : list ReferencedTable :=
  dedupe ∅ (visit ast []).

(** ** The denylist policy engine *)

(** Modelled from the spec: the type [DenylistedTable] of the
    configuration module, which is not among the sources.  Section 3,
    DenylistEntry: [{ schema: optional string, table: string }]. *)
Record DenylistedTable : Type :=
  mkDeny { deny_schema : option string; deny_table : string }.

(** [{ blocked: boolean; reason?: string }] *)
Record Decision : Type := mkDecision { blocked : bool; reason : option string }.

Definition notBlocked : Decision := mkDecision false None.

Definition unqualifiedReason : string :=
  "Unqualified table references are not allowed in multi-DB mode when MYSQL_TABLE_DENYLIST is set. Use fully-qualified schema.table names.".

(** [`Access to table '${name}' is blocked by MYSQL_TABLE_DENYLIST`] *)
Definition accessReason (name : string) : string :=
  "Access to table '" +:+ name +:+ "' is blocked by MYSQL_TABLE_DENYLIST".

(** [a || b] on [string | undefined]. *)
Definition orElse (a b : option string) : option string :=
  if truthyOpt a then a else b.

(** [t.schema || normalizeIdent(defaultSchema) || undefined] (line 107). *)
Definition resolveSchema (t : ReferencedTable) (defaultSchema : MaybeStr) : option string :=
  orElse (orElse (schema t) (normalizeIdent defaultSchema)) None.

(** [a === b] on [string | undefined]. *)
Definition strictEq (a b : option string) : bool :=
  match a, b with
  | Some x, Some y => String.eqb x y
  | None, None => true
  | _, _ => false
  end.

(** The inner loop over the denylist (lines 110-127) for one referenced
    table: the decision it returns, or [None] when it falls through. *)
Fixpoint scanDenylist (sch : option string) (tbl : string)
    (denylist : list DenylistedTable) : option Decision :=
  match denylist with
  | [] => None
  | deny :: rest =>
      if truthyOpt (deny_schema deny) then
        if truthyOpt sch && strictEq (deny_schema deny) sch
           && String.eqb (deny_table deny) tbl
        then Some (mkDecision true
                     (Some (accessReason
                              (default "" (deny_schema deny) +:+ "." +:+ deny_table deny))))
        else scanDenylist sch tbl rest
      else
        if String.eqb (deny_table deny) tbl
        then Some (mkDecision true (Some (accessReason tbl)))
        else scanDenylist sch tbl rest
  end.

(** The outer loop over the referenced tables (lines 106-128). *)
Fixpoint scanReferenced (referenced : list ReferencedTable)
    (denylist : list DenylistedTable) (defaultSchema : MaybeStr) : option Decision :=
  match referenced with
  | [] => None
  | t :: rest =>
      match scanDenylist (resolveSchema t defaultSchema) (table t) denylist with
      | Some d => Some d
      | None => scanReferenced rest denylist defaultSchema
      end
  end.

(** Everything after [getReferencedTables] has returned (lines 91-130). *)
Definition decide_referenced (referenced : list ReferencedTable)
    (denylist : list DenylistedTable) (defaultSchema : MaybeStr)
    (multiDbMode : bool) : Decision :=
  if (length referenced =? 0)%nat then notBlocked
  else if multiDbMode && existsb (fun t => negb (truthyOpt (schema t))) referenced
  then mkDecision true (Some unqualifiedReason)
  else default notBlocked (scanReferenced referenced denylist defaultSchema).

(** ** The schema heuristic: the two regular expressions *)

(** [[a-zA-Z0-9_]] (under the [i] flag no other code unit below 256
    folds into the class). *)
Definition isWordChar (c : ascii) : bool :=
  let n := code c in
  ((48 <=? n)%N && (n <=? 57)%N) || ((65 <=? n)%N && (n <=? 90)%N)
  || ((97 <=? n)%N && (n <=? 122)%N) || (n =? 95)%N.

(** A literal letter of the pattern under the [i] flag. *)
Definition eqChar_i (pattern c : ascii) : bool :=
  (code (toLowerChar pattern) =? code (toLowerChar c))%N.

(** The longest run of word characters at the head of [s]. *)
Fixpoint wordRun (s : string) : string :=
  match s with
  | EmptyString => EmptyString
  | String c rest => if isWordChar c then String c (wordRun rest) else EmptyString
  end.

Fixpoint afterWordRun (s : string) : string :=
  match s with
  | EmptyString => EmptyString
  | String c rest => if isWordChar c then afterWordRun rest else s
  end.

(** [`?] : skip one backtick when there is one. *)
Definition skipBacktick (s : string) : string :=
  match s with
  | String c rest => if isBacktick c then rest else s
  | EmptyString => s
  end.

(** [`?([a-zA-Z0-9_]+)] anchored at the head of [s]: the captured group
    and the rest of the input. *)
Definition quotedWord (s : string) : option (string * string) :=
  let s' := skipBacktick s in
  match wordRun s' with
  | EmptyString => None
  | w => Some (w, afterWordRun s')
  end.

(** [/USE\s+`?([a-zA-Z0-9_]+)`?/i] anchored at the head of [s]. *)
Definition matchUseAt (s : string) : option string :=
  match s with
  | String c1 (String c2 (String c3 (String w rest))) =>
      if eqChar_i "U" c1 && eqChar_i "S" c2 && eqChar_i "E" c3 && isWhiteSpace w
      then fst <$> quotedWord (trimStart rest)
      else None
  | _ => None
  end.

(** [/`?([a-zA-Z0-9_]+)`?\.`?[a-zA-Z0-9_]+`?/i] anchored at the head of [s]. *)
Definition matchDbTableAt (s : string) : option string :=
  match quotedWord s with
  | Some (db, rest) =>
      match skipBacktick rest with
      | String dot rest' =>
          if (code dot =? 46)%N then
            match quotedWord rest' with
            | Some _ => Some db
            | None => None
            end
          else None
      | EmptyString => None
      end
  | None => None
  end.

(** [sql.match(re)]: the leftmost position where the anchored matcher
    succeeds, and the first group there. *)
Fixpoint firstMatch (matchAt : string -> option string) (s : string) : option string :=
  match matchAt s with
  | Some group => Some group
  | None =>
      match s with
      | EmptyString => None
      | String _ rest => firstMatch matchAt rest
      end
  end.

(** The part of [process.env] the module reads. *)
Record ProcessEnv : Type := mkEnv { MYSQL_DB : option string }.

(** ** The functions that use the parser, the imports and the environment *)

Inductive LogArg : Type :=
  | LogText (s : string)
  | LogError (e : JsError).

(** One call [log(level, ...args)]. *)
Record LogCall : Type := mkLog { level : string; args : list LogArg }.

(** The message V8 gives the [TypeError] of reading a property of
    [null] or [undefined], and of calling a property that is no function. *)
Definition typeErrorRead (v : JsVal) : JsError :=
  Error ("Cannot read properties of "
         +:+ (match v with JNull => "null" | _ => "undefined" end)
         +:+ " (reading 'type')").

Definition typeErrorCall : JsError :=
  Error "stmt.type?.toLowerCase is not a function".

(** [stmt.type?.toLowerCase() ?? "unknown"] *)
Definition statementType (stmt : JsVal) : Result string :=
  match stmt with
  | JUndefined | JNull => Throw (typeErrorRead stmt)
  | JObj fields =>
      match getProp "type" fields with
      | JUndefined | JNull => Ok "unknown"
      | JStr s => Ok (toLowerCase s)
      | _ => Throw typeErrorCall
      end
  | _ => Ok "unknown"
  end.

(** [statements.map(f)] for an [f] that may throw. *)
Fixpoint mapResult {A B : Type} (f : A -> Result B) (l : list A) : Result (list B) :=
  match l with
  | [] => Ok []
  | x :: rest =>
      match f x with
      | Throw e => Throw e
      | Ok y =>
          match mapResult f rest with
          | Throw e => Throw e
          | Ok ys => Ok (y :: ys)
          end
      end
  end.

(** [Array.isArray(astOrArray) ? astOrArray : [astOrArray]] *)
Definition statementsOf (astOrArray : JsVal) : list JsVal :=
  match astOrArray with
  | JArr items => items
  | _ => [astOrArray]
  end.

Definition singleStatementError : JsError :=
  Error "Only single-statement SQL is allowed".

(** What the functions of the module reach besides their arguments:
    [parser.astify(sql, { database: "mysql" })] of node-sql-parser, the
    constant [isMultiDbMode] imported from the configuration module, and
    [process.env]. *)
Record Scope : Type :=
  mkScope { astify : string -> Result JsVal;
            isMultiDbMode : bool;
            processEnv : ProcessEnv }.

Section Utils.

Variable scope : Scope.

(** [getReferencedTables], lines 71-79. *)
Definition getReferencedTables (sql : string) : Result (list ReferencedTable) :=
  match astify scope sql with
  | Throw e => Throw e
  | Ok astOrArray =>
      match statementsOf astOrArray with
      | [statement] => Ok (getReferencedTablesFromAst statement)
      | _ => Throw singleStatementError
      end
  end.

(** [isQueryBlockedByDenylist], lines 81-131. *)
Definition isQueryBlockedByDenylist (sql : string) (denylist : list DenylistedTable)
    (defaultSchema : MaybeStr) (multiDbMode : bool) : Result Decision :=
  if (length denylist =? 0)%nat then Ok notBlocked
  else
    match getReferencedTables sql with
    | Throw e => Throw e
    | Ok referenced => Ok (decide_referenced referenced denylist defaultSchema multiDbMode)
    end.

(** [extractSchemaFromQuery], lines 134-159. *)
Definition extractSchemaFromQuery (sql : string) : option string :=
  let defaultSchema := orElse (MYSQL_DB (processEnv scope)) None in
  if truthyOpt defaultSchema && negb (isMultiDbMode scope) then defaultSchema
  else
    match firstMatch matchUseAt sql with
    | Some db => Some db
    | None =>
        match firstMatch matchDbTableAt sql with
        | Some db => Some db
        | None => defaultSchema
        end
    end.

(** [getQueryTypes], lines 161-180: the calls of [log] it makes and the
    outcome of the promise it returns. *)
Definition getQueryTypes (query : string) : list LogCall * Result (list string) :=
  let attempt :=
    match astify scope query with
    | Throw e => Throw e
    | Ok astOrArray =>
        match statementsOf astOrArray with
        | [statement] => mapResult statementType [statement]
        | _ => Throw singleStatementError
        end
    end in
  let started := mkLog "info" [LogText "Parsing SQL query: "; LogText query] in
  match attempt with
  | Ok types => ([started], Ok types)
  | Throw err =>
      ([started;
        mkLog "error" [LogText "sqlParser error, query: "; LogText query];
        mkLog "error" [LogText "Error parsing SQL query:"; LogError err]],
       Throw (Error ("Parsing failed: " +:+ message err)))
  end.

End Utils.

(** ** The read-only executor *)

(** Modelled from the spec: the operation kinds of the statement
    classifier (section 2: select, insert, update, delete, ddl, other). *)
Inductive StatementKind : Type :=
  | KSelect | KInsert | KUpdate | KDelete | KDdl | KOther.

(** Modelled from the spec: the per-operation allow flags of the
    configuration snapshot (section 3). *)
Record AllowFlags : Type :=
  mkFlags { allowInsert : bool; allowUpdate : bool; allowDelete : bool; allowDdl : bool }.

(** Modelled from the spec: what the executor asks of the pool and of
    the leased connection (section 4.5; the mocked connection of the unit
    tests has the same operations). *)
Inductive ConnCall : Type :=
  | GetConnection
  | Query (sql : string)
  | BeginTransaction
  | Commit
  | Rollback
  | Release.

#[global] Instance ConnCall_eq_dec : EqDecision ConnCall.
Proof. solve_decision. Defined.

(** Modelled from the spec: the result shape of section 6,
    [{ content: [{ type: "text", text }, ...], isError }]. *)
Record ToolResult : Type := mkToolResult { content : list string; isError : bool }.

(** Computations that call the connection: the calls made so far are
    threaded through. *)
Definition Exec (A : Type) : Type := list ConnCall -> A * list ConnCall.

Definition ret {A : Type} (a : A) : Exec A := fun calls => (a, calls).

Definition bind {A B : Type} (m : Exec A) (k : A -> Exec B) : Exec B :=
  fun calls => let (a, calls') := m calls in k a calls'.

Definition call (c : ConnCall) : Exec unit := fun calls => (tt, calls ++ [c]).

Notation "m ;;; k" := (bind m (fun _ => k))
  (at level 100, k at level 200, right associativity).

(** Modelled from the spec: the flag that has to be enabled for a kind,
    when the kind has one (section 4.5, read-only mode). *)
Definition requiredFlag (flags : AllowFlags) (kind : StatementKind) : option bool :=
  match kind with
  | KInsert => Some (allowInsert flags)
  | KUpdate => Some (allowUpdate flags)
  | KDelete => Some (allowDelete flags)
  | KDdl => Some (allowDdl flags)
  | KSelect | KOther => None
  end.

Definition kindName (kind : StatementKind) : string :=
  match kind with
  | KSelect => "SELECT"
  | KInsert => "INSERT"
  | KUpdate => "UPDATE"
  | KDelete => "DELETE"
  | KDdl => "DDL"
  | KOther => "OTHER"
  end.

(** Modelled from the spec: a blocked or failed query gives a single
    text block that explains the denial, with [isError] set (section 6);
    the unit tests expect the text to contain
    [INSERT operations are not allowed] for an insert. *)
Definition blockedResult (kind : StatementKind) : ToolResult :=
  mkToolResult ["Error: " +:+ kindName kind +:+ " operations are not allowed."] true.

Definition errorResult (e : JsError) : ToolResult :=
  mkToolResult ["Error: " +:+ message e] true.

Section Executor.

(** The statement classifier (component 4 of the specification). *)
Variable classify : string -> Result StatementKind.

(** The answer of the database to a statement: the rows, printed as
    JSON, or the failure it raises. *)
Variable database : string -> Result string.

(** The text block reporting the elapsed execution time. *)
Variable elapsed : string.

Variable flags : AllowFlags.

(** Modelled from the spec: [executeReadOnlyQuery] of [src/db/index.ts],
    which is not among the sources (only its unit tests are).  Section
    4.5, read-only mode: classify the statement; if it is
    insert/update/delete/ddl and the corresponding flag is not enabled,
    return a blocked result without opening a transaction; otherwise
    acquire a connection, set the session read-only, begin a transaction,
    run the statement, always roll back, restore the session to
    read-write and release the connection.  A classification error is
    reported as an error result (section 4.5, failure semantics). *)
Definition executeReadOnlyQuery (sql : string) : Exec ToolResult :=
  match classify sql with
  | Throw e => ret (errorResult e)
  | Ok kind =>
      match requiredFlag flags kind with
      | Some false => ret (blockedResult kind)
      | _ =>
          call GetConnection ;;;
          call (Query "SET SESSION TRANSACTION READ ONLY") ;;;
          call BeginTransaction ;;;
          call (Query sql) ;;;
          call Rollback ;;;
          call (Query "SET SESSION TRANSACTION READ WRITE") ;;;
          call Release ;;;
          ret (match database sql with
               | Ok rows => mkToolResult [rows; elapsed] false
               | Throw e => errorResult e
               end)
      end
  end.

End Executor.

(** ** The specification's reading of the matching rule *)

(** The qualifier of a reference or of an entry; an empty one counts as
    absent. *)
Definition qualifier (o : option string) : option string := orElse o None.

(** A reference without an explicit schema. *)
Definition unqualified (t : ReferencedTable) : Prop := qualifier (schema t) = None.

(** Section 4.3, step 3: a table without an explicit schema is resolved
    against the configured default schema. *)
Definition spec_resolved_schema (t : ReferencedTable) (defaultSchema : MaybeStr)
    : option string :=
  match qualifier (schema t) with
  | Some s => Some s
  | None => qualifier (normalizeIdent defaultSchema)
  end.

(** Section 4.3, step 4: a schema-qualified entry blocks only on exact
    schema+table match; a schema-less entry blocks on table-name match in
    any resolved schema. *)
Definition spec_entry_blocks (deny : DenylistedTable) (resolved : option string)
    (tbl : string) : Prop :=
  match qualifier (deny_schema deny) with
  | Some s => resolved = Some s ∧ deny_table deny = tbl
  | None => deny_table deny = tbl
  end.

(** ** Notions used to state the properties *)

(** The test of one denylist entry in the inner loop (lines 112-126). *)
Definition denyMatches (deny : DenylistedTable) (sch : option string) (tbl : string) : bool :=
  if truthyOpt (deny_schema deny) then
    truthyOpt sch && strictEq (deny_schema deny) sch && String.eqb (deny_table deny) tbl
  else String.eqb (deny_table deny) tbl.

(** The table name the reason carries when [deny] matches [tbl]. *)
Definition blockedName (deny : DenylistedTable) (tbl : string) : string :=
  if truthyOpt (deny_schema deny)
  then default "" (deny_schema deny) +:+ "." +:+ deny_table deny
  else tbl.

(** [s.includes(sub)] *)
Fixpoint includes (s sub : string) : bool :=
  String.prefix sub s
  || match s with
     | EmptyString => false
     | String _ rest => includes rest sub
     end.

Fixpoint allChars (p : ascii -> bool) (s : string) : bool :=
  match s with
  | EmptyString => true
  | String c rest => p c && allChars p rest
  end.

Definition isDot (c : ascii) : bool := (code c =? 46)%N.

(** A name without a dot. *)
Definition dotFree (s : string) : bool := allChars (fun c => negb (isDot c)) s.

(** An identifier in normal form: without backticks, trimmed and in lower
    case. *)
Definition normalForm (s : string) : Prop :=
  removeBackticks s = s ∧ trim s = s ∧ toLowerCase s = s.

(** [node] occurs in [ast], at any depth, inside arrays and objects. *)
Inductive subnode (node : JsVal) : JsVal -> Prop :=
  | subnode_here : subnode node node
  | subnode_item items item :
      item ∈ items -> subnode node item -> subnode node (JArr items)
  | subnode_value fields key value :
      (key, value) ∈ fields -> subnode node value -> subnode node (JObj fields).

(** Two syntax trees of the same shape whose strings are equal after
    [normalizeIdent]: they differ in the letter case, the backtick quoting
    and the surrounding white space of their identifiers at most. *)
Fixpoint identEquivb (a b : JsVal) : bool :=
  match a, b with
  | JUndefined, JUndefined => true
  | JNull, JNull => true
  | JBool x, JBool y => bool_decide (x = y)
  | JNum x, JNum y => bool_decide (x = y)
  | JStr x, JStr y => bool_decide (normalizeIdent (MStr x) = normalizeIdent (MStr y))
  | JArr xs, JArr ys =>
      (fix items (xs ys : list JsVal) : bool :=
         match xs, ys with
         | [], [] => true
         | x :: xs', y :: ys' => identEquivb x y && items xs' ys'
         | _, _ => false
         end) xs ys
  | JObj fs, JObj gs =>
      (fix fields (fs gs : list (string * JsVal)) : bool :=
         match fs, gs with
         | [], [] => true
         | (k, x) :: fs', (k', y) :: gs' =>
             String.eqb k k' && identEquivb x y && fields fs' gs'
         | _, _ => false
         end) fs gs
  | _, _ => false
  end.

(** The same denylist up to [normalizeIdent] of the names of its entries. *)
Definition denyEquiv (d1 d2 : DenylistedTable) : Prop :=
  normalizeIdent (MStr (deny_table d1)) = normalizeIdent (MStr (deny_table d2))
  ∧ match deny_schema d1, deny_schema d2 with
    | Some s1, Some s2 => normalizeIdent (MStr s1) = normalizeIdent (MStr s2)
    | None, None => True
    | _, _ => False
    end.

(** ** Sample statements *)

(** The tree node-sql-parser builds for [SELECT * FROM db.tbl] (for
    [SELECT * FROM tbl] when [db] is [JNull]). *)
Definition selectStarFrom (db : JsVal) (tbl : string) : JsVal :=
  JObj [("with", JNull);
        ("type", JStr "select");
        ("options", JNull);
        ("distinct", JNull);
        ("columns",
          JArr [JObj [("expr", JObj [("type", JStr "column_ref");
                                      ("table", JNull);
                                      ("column", JStr "*")]);
                      ("as", JNull)]]);
        ("from", JArr [JObj [("db", db); ("table", JStr tbl); ("as", JNull)]]);
        ("where", JNull);
        ("groupby", JNull);
        ("having", JNull);
        ("orderby", JNull);
        ("limit", JNull)].

(** The tree for [SELECT n]. *)
Definition selectNumber (n : Z) : JsVal :=
  JObj [("with", JNull);
        ("type", JStr "select");
        ("options", JNull);
        ("distinct", JNull);
        ("columns",
          JArr [JObj [("expr", JObj [("type", JStr "number"); ("value", JNum n)]);
                      ("as", JNull)]]);
        ("from", JNull);
        ("where", JNull);
        ("groupby", JNull);
        ("having", JNull);
        ("orderby", JNull);
        ("limit", JNull)].

Definition columnRef (tbl column : string) : JsVal :=
  JObj [("type", JStr "column_ref"); ("table", JStr tbl); ("column", JStr column)].

(** The tree for
    [SELECT * FROM app.orders o JOIN app.users u ON u.id = o.user_id]. *)
Definition selectJoin : JsVal :=
  JObj [("with", JNull);
        ("type", JStr "select");
        ("options", JNull);
        ("distinct", JNull);
        ("columns",
          JArr [JObj [("expr", JObj [("type", JStr "column_ref");
                                      ("table", JNull);
                                      ("column", JStr "*")]);
                      ("as", JNull)]]);
        ("from",
          JArr [JObj [("db", JStr "app"); ("table", JStr "orders"); ("as", JStr "o")];
                JObj [("db", JStr "app"); ("table", JStr "users"); ("as", JStr "u");
                      ("join", JStr "INNER JOIN");
                      ("on", JObj [("type", JStr "binary_expr");
                                   ("operator", JStr "=");
                                   ("left", columnRef "u" "id");
                                   ("right", columnRef "o" "user_id")])]]);
        ("where", JNull);
        ("groupby", JNull);
        ("having", JNull);
        ("orderby", JNull);
        ("limit", JNull)].

(** A parser defined on the sample statements only. *)
Definition sampleAstify (sql : string) : Result JsVal :=
  if String.eqb sql "SELECT * FROM prod.users" then Ok (selectStarFrom (JStr "prod") "users")
  else if String.eqb sql "SELECT * FROM app.orders o JOIN app.users u ON u.id = o.user_id"
  then Ok selectJoin
  else if String.eqb sql "SELECT * FROM users" then Ok (selectStarFrom JNull "users")
  else if String.eqb sql "SELECT * FROM `Users`" then Ok (selectStarFrom JNull "Users")
  else if String.eqb sql "SELECT * FROM orders" then Ok (selectStarFrom JNull "orders")
  else if String.eqb sql "SELECT 1" then Ok (selectNumber 1)
  else if String.eqb sql "SELECT 1; SELECT 2" then Ok (JArr [selectNumber 1; selectNumber 2])
  else Throw (Error "Expected a statement").

Definition sampleScope : Scope := mkScope sampleAstify false (mkEnv None).

(** The same parser where [MYSQL_DB] is set. *)
Definition legacyScope : Scope := mkScope sampleAstify false (mkEnv (Some "legacy")).

(** ** The test client of the integration tests *)

(** The variables [listTools] reads from [process.env]. *)
Record FlagEnv : Type :=
  mkFlagEnv { ALLOW_INSERT_OPERATION : option string;
              ALLOW_UPDATE_OPERATION : option string;
              ALLOW_DELETE_OPERATION : option string }.

(** [process.env.X === "true"] *)
Definition isTrue (value : option string) : bool := strictEq value (Some "true").

(** [s.replace(/,$/, "")]: without the [m] flag, [$] is the end of the
    input. *)
Fixpoint dropFinalComma (s : string) : string :=
  match s with
  | EmptyString => EmptyString
  | String c EmptyString => if (code c =? 44)%N then EmptyString else s
  | String c rest => String c (dropFinalComma rest)
  end.

(** The description [listTools] builds (query.test.ts, [createTestClient]). *)
Definition toolDescription (allowInsert allowUpdate allowDelete : bool) : string :=
  let description := "Run SQL queries against MySQL database" in
  if allowInsert || allowUpdate || allowDelete then
    let description := description +:+ " with support for:" in
    let description := if allowInsert then description +:+ " INSERT," else description in
    let description := if allowUpdate then description +:+ " UPDATE," else description in
    let description := if allowDelete then description +:+ " DELETE," else description in
    dropFinalComma description +:+ " and READ operations"
  else description +:+ " (READ-ONLY)".

Record Tool : Type := mkTool { name : string; description : string; inputSchema : JsVal }.

Definition sqlInputSchema : JsVal :=
  JObj [("type", JStr "object");
        ("properties", JObj [("sql", JObj [("type", JStr "string")])])].

(** [listTools] of the test client: the [tools] of its result. *)
Definition listTools (env : FlagEnv) : list Tool :=
  let allowInsert := isTrue (ALLOW_INSERT_OPERATION env) in
  let allowUpdate := isTrue (ALLOW_UPDATE_OPERATION env) in
  let allowDelete := isTrue (ALLOW_DELETE_OPERATION env) in
  let description := toolDescription allowInsert allowUpdate allowDelete in
  let tools :=
    [mkTool "mysql_query_read" (description +:+ " (strict read-only tool)") sqlInputSchema] in
  if allowInsert || allowUpdate || allowDelete
  then tools ++ [mkTool "mysql_query_write" description sqlInputSchema]
  else tools.

(** * Properties *)

(** ** Characters *)

Ltac by_cases_on_char c :=
  destruct c as [[] [] [] [] [] [] [] []]; vm_compute; reflexivity.

Lemma toLowerChar_idemp c : toLowerChar (toLowerChar c) = toLowerChar c.
Proof. by_cases_on_char c. Qed.

Lemma isWhiteSpace_toLowerChar c : isWhiteSpace (toLowerChar c) = isWhiteSpace c.
Proof. by_cases_on_char c. Qed.

Lemma isBacktick_toLowerChar c : isBacktick (toLowerChar c) = isBacktick c.
Proof. by_cases_on_char c. Qed.

(** ** Normal forms of identifiers *)

Lemma toLowerCase_idemp s : toLowerCase (toLowerCase s) = toLowerCase s.
Proof. induction s as [|c s IH]; simpl; [done|]. by rewrite toLowerChar_idemp, IH. Qed.

Lemma trimStart_toLowerCase s : trimStart (toLowerCase s) = toLowerCase (trimStart s).
Proof.
  induction s as [|c s IH]; simpl; [done|].
  rewrite isWhiteSpace_toLowerChar. by destruct (isWhiteSpace c).
Qed.

Lemma trimEnd_toLowerCase s : trimEnd (toLowerCase s) = toLowerCase (trimEnd s).
Proof.
  induction s as [|c s IH]; simpl; [done|].
  rewrite IH, isWhiteSpace_toLowerChar.
  destruct (trimEnd s); simpl; [|done]. by destruct (isWhiteSpace c).
Qed.

Lemma trim_toLowerCase s : trim (toLowerCase s) = toLowerCase (trim s).
Proof. unfold trim. by rewrite trimStart_toLowerCase, trimEnd_toLowerCase. Qed.

Lemma trimStart_idemp s : trimStart (trimStart s) = trimStart s.
Proof.
  induction s as [|c s IH]; simpl; [done|].
  destruct (isWhiteSpace c) eqn:E; [done|]. simpl. by rewrite E.
Qed.

Lemma trimEnd_idemp s : trimEnd (trimEnd s) = trimEnd s.
Proof.
  induction s as [|c s IH]; simpl; [done|].
  destruct (trimEnd s) as [|c' k] eqn:E.
  - destruct (isWhiteSpace c) eqn:Ec; simpl; [done|]. by rewrite Ec.
  - change (trimEnd (String c (String c' k))) with
      (match trimEnd (String c' k) with
       | EmptyString => if isWhiteSpace c then EmptyString else String c EmptyString
       | kept => String c kept
       end).
    by rewrite IH.
Qed.

Lemma trimStart_trimEnd s : trimStart (trimEnd s) = trimEnd (trimStart s).
Proof.
  induction s as [|c s IH]; simpl; [done|].
  destruct (isWhiteSpace c) eqn:Ec.
  - rewrite <- IH. destruct (trimEnd s); simpl; [done|]. by rewrite Ec.
  - simpl. destruct (trimEnd s); simpl; by rewrite Ec.
Qed.

Lemma trim_idemp s : trim (trim s) = trim s.
Proof.
  unfold trim.
  by rewrite trimStart_trimEnd, trimStart_idemp, trimEnd_idemp.
Qed.

Lemma allChars_removeBackticks s :
  allChars (fun c => negb (isBacktick c)) (removeBackticks s) = true.
Proof.
  induction s as [|c s IH]; simpl; [done|].
  destruct (isBacktick c) eqn:E; simpl; [done|]. by rewrite E.
Qed.

Lemma allChars_trimStart p s : allChars p s = true -> allChars p (trimStart s) = true.
Proof.
  induction s as [|c s IH]; simpl; [done|].
  intros [??]%andb_prop. destruct (isWhiteSpace c); simpl; [auto|].
  by apply andb_true_intro.
Qed.

Lemma allChars_trimEnd p s : allChars p s = true -> allChars p (trimEnd s) = true.
Proof.
  induction s as [|c s IH]; simpl; [done|].
  intros [Hc Hs]%andb_prop. specialize (IH Hs).
  destruct (trimEnd s).
  - destruct (isWhiteSpace c); simpl; [done|]. by rewrite Hc.
  - simpl in *. by rewrite Hc, IH.
Qed.

Lemma allChars_toLowerCase_backtick s :
  allChars (fun c => negb (isBacktick c)) s = true ->
  allChars (fun c => negb (isBacktick c)) (toLowerCase s) = true.
Proof.
  induction s as [|c s IH]; simpl; [done|].
  intros [Hc Hs]%andb_prop. by rewrite isBacktick_toLowerChar, Hc, IH.
Qed.

Lemma removeBackticks_fixed s :
  allChars (fun c => negb (isBacktick c)) s = true -> removeBackticks s = s.
Proof.
  induction s as [|c s IH]; simpl; [done|].
  intros [Hc Hs]%andb_prop. apply negb_true_iff in Hc. by rewrite Hc, IH.
Qed.

Lemma normalizeIdent_normalForm part s :
  normalizeIdent part = Some s -> normalForm s.
Proof.
  destruct part as [| |x]; simpl; try done.
  destruct (truthyStr x); simpl; [|done].
  intros [= <-]. repeat split.
  - apply removeBackticks_fixed, allChars_toLowerCase_backtick.
    apply allChars_trimEnd, allChars_trimStart, allChars_removeBackticks.
  - by rewrite trim_toLowerCase, trim_idemp.
  - apply toLowerCase_idemp.
Qed.

Lemma normalizeIdent_fixed s :
  normalForm s -> truthyStr s = true -> normalizeIdent (MStr s) = Some s.
Proof.
  intros (Hb & Ht & Hl) Hs. simpl. rewrite Hs. simpl. by rewrite Hb, Ht, Hl.
Qed.

(** ** The traversal *)

(** Induction on syntax trees, with the hypothesis for every item of an
    array and every value of an object. *)
Lemma JsVal_nested_ind (P : JsVal -> Prop) :
  P JUndefined -> P JNull -> (∀ b, P (JBool b)) -> (∀ n, P (JNum n)) ->
  (∀ s, P (JStr s)) ->
  (∀ items, Forall P items -> P (JArr items)) ->
  (∀ fields, Forall (fun kv => P kv.2) fields -> P (JObj fields)) ->
  ∀ v, P v.
Proof.
  intros Hu Hn Hb Hz Hs Harr Hobj. fix IH 1.
  intros [ | |b|n|s|items|fields];
    [exact Hu|exact Hn|apply Hb|apply Hz|apply Hs| | ].
  - apply Harr. induction items as [|x xs IHxs]; constructor; [apply IH|exact IHxs].
  - apply Hobj. induction fields as [|[k x] fs IHfs]; constructor; [apply IH|exact IHfs].
Qed.

Lemma visit_arr items out :
  visit (JArr items) out = foldl (fun acc n => visit n acc) out items.
Proof.
  simpl. revert out. induction items as [|n ns IH]; intros out; [done|]. apply IH.
Qed.

Lemma visit_obj fields out :
  visit (JObj fields) out
  = foldl (fun acc kv => visit kv.2 acc) (out ++ ownReference fields) fields.
Proof.
  simpl. generalize (out ++ ownReference fields).
  induction fields as [|[k v] fs IH]; intros acc; [done|]. apply IH.
Qed.

Lemma foldl_visit_app {A} (f : A -> JsVal) (l : list A) out :
  Forall (fun x => ∀ out, visit (f x) out = out ++ visit (f x) []) l ->
  foldl (fun acc x => visit (f x) acc) out l = out ++ (l ≫= fun x => visit (f x) []).
Proof.
  intros Hl. revert out. induction Hl as [|x l Hx _ IH]; intros out; simpl.
  - by rewrite app_nil_r.
  - rewrite IH, Hx. by rewrite <- app_assoc.
Qed.

(** [visit] only pushes on [out]. *)
Lemma visit_app node out : visit node out = out ++ visit node [].
Proof.
  revert out. induction node as [ | |b|n|s|items IH|fields IH] using JsVal_nested_ind;
    intros out; try (simpl; repeat case_match; by rewrite ?app_nil_r).
  - rewrite !visit_arr, !(foldl_visit_app id) by done. done.
  - rewrite !visit_obj, !(foldl_visit_app snd) by done.
    simpl. by rewrite app_assoc.
Qed.

Lemma visit_arr_flat items :
  visit (JArr items) [] = items ≫= fun n => visit n [].
Proof.
  rewrite visit_arr, (foldl_visit_app id); [done|].
  apply Forall_forall. intros x _ out. apply visit_app.
Qed.

Lemma visit_obj_flat fields :
  visit (JObj fields) [] = ownReference fields ++ (fields ≫= fun kv => visit kv.2 []).
Proof.
  rewrite visit_obj, (foldl_visit_app snd); [done|].
  apply Forall_forall. intros x _ out. apply visit_app.
Qed.

Lemma visit_scalar node :
  (∀ items, node ≠ JArr items) -> (∀ fields, node ≠ JObj fields) -> visit node [] = [].
Proof.
  destruct node as [ | |b|n|s|items|fields]; simpl; intros Ha Ho;
    try done; try by case_match.
  - by destruct (Ha items).
  - by destruct (Ho fields).
Qed.

(** The references pushed while visiting [ast] are those of the object
    nodes that occur in it. *)
Lemma elem_of_visit ast r :
  r ∈ visit ast [] ↔ ∃ fields, subnode (JObj fields) ast ∧ r ∈ ownReference fields.
Proof.
  split.
  - revert r. induction ast as [ | |b|n|s|items IH|fields IH] using JsVal_nested_ind;
      intros r; try (rewrite visit_scalar by done; by intros ?%elem_of_nil).
    + rewrite visit_arr_flat. intros (x & Hr & Hx)%list_elem_of_bind.
      rewrite Forall_forall in IH. destruct (IH x Hx r Hr) as (fs & Hsub & Hown).
      exists fs. split; [|done]. by eapply subnode_item.
    + rewrite visit_obj_flat. intros [Hown|(kv & Hr & Hkv)%list_elem_of_bind]%elem_of_app.
      * exists fields. split; [constructor|done].
      * rewrite Forall_forall in IH. destruct (IH kv Hkv r Hr) as (fs & Hsub & Hown).
        exists fs. split; [|done]. destruct kv as [k v]. by eapply subnode_value.
  - intros (fs & Hsub & Hown). induction Hsub as [|items item Hin _ IH|fields key value Hin _ IH].
    + rewrite visit_obj_flat. apply elem_of_app. by left.
    + rewrite visit_arr_flat. apply list_elem_of_bind. by exists item.
    + rewrite visit_obj_flat. apply elem_of_app. right.
      apply list_elem_of_bind. by exists (key, value).
Qed.

(** What a node pushes is in normal form and has a non-empty table name. *)
Lemma ownReference_inv fields r :
  r ∈ ownReference fields ->
  ∃ maybeTable,
    getProp "table" fields = JStr maybeTable
    ∧ normalizeIdent (MStr maybeTable) = Some (table r)
    ∧ truthyStr (table r) = true
    ∧ schema r = match getProp "db" fields with
                 | JStr maybeDb => normalizeIdent (MStr maybeDb)
                 | _ => None
                 end.
Proof.
  unfold ownReference. destruct (getProp "table" fields) as [ | | | |s| | ];
    try by intros ?%elem_of_nil.
  destruct (normalizeIdent (MStr s)) as [tbl|] eqn:Hn; [|by intros ?%elem_of_nil].
  destruct (truthyStr tbl) eqn:Ht; [|by intros ?%elem_of_nil].
  intros ->%list_elem_of_singleton. by exists s.
Qed.

(** ** De-duplication *)

Lemma dedupe_subseteq seen out : dedupe seen out ⊆ out.
Proof.
  revert seen. induction out as [|t rest IH]; intros seen; simpl; [done|].
  case_bool_decide.
  - by apply list_subseteq_cons.
  - intros x [->|Hx]%elem_of_cons; [left|right; by eapply IH].
Qed.

Lemma dedupe_keys_fresh seen out t :
  t ∈ dedupe seen out -> refKey t ∉ seen.
Proof.
  revert seen. induction out as [|u rest IH]; intros seen; simpl; [by intros ?%elem_of_nil|].
  case_bool_decide as Hk; [apply IH|].
  intros [->|Ht]%elem_of_cons; [done|]. apply IH in Ht. set_solver.
Qed.

Lemma dedupe_NoDup_keys seen out : NoDup (refKey <$> dedupe seen out).
Proof.
  revert seen. induction out as [|t rest IH]; intros seen; simpl; [constructor|].
  case_bool_decide; [apply IH|].
  rewrite fmap_cons. constructor; [|apply IH].
  intros (u & Hku & Hu)%list_elem_of_fmap. apply dedupe_keys_fresh in Hu. set_solver.
Qed.

(** Every reference pushed leaves one with the same key in the result. *)
Lemma dedupe_keeps_key seen out t :
  t ∈ out -> refKey t ∉ seen -> ∃ u, u ∈ dedupe seen out ∧ refKey u = refKey t.
Proof.
  revert seen. induction out as [|x rest IH]; intros seen; [by intros ?%elem_of_nil|].
  simpl. intros Ht Hfresh. case_bool_decide as Hx.
  - apply elem_of_cons in Ht as [->|Ht]; [done|]. by apply IH.
  - destruct (decide (refKey x = refKey t)) as [Heq|Hne].
    + exists x. split; [left|done].
    + apply elem_of_cons in Ht as [->|Ht]; [done|].
      assert (refKey t ∉ {[refKey x]} ∪ seen) as Hfresh'.
      { rewrite elem_of_union, elem_of_singleton. intros [?|?]; [congruence|done]. }
      destruct (IH _ Ht Hfresh') as (u & Hu & Hk).
      exists u. split; [by right|done].
Qed.

(** ** Keys of dot-free names *)

Lemma isDot_spec c : isDot c = true ↔ c = "."%char.
Proof.
  split; [|by intros ->].
  destruct c as [[] [] [] [] [] [] [] []]; vm_compute; done.
Qed.

Lemma append_empty s : "" +:+ s = s.
Proof. reflexivity. Qed.

Lemma append_String c s t : String c s +:+ t = String c (s +:+ t).
Proof. reflexivity. Qed.

Lemma key_split s tbl s' tbl' :
  dotFree s = true -> dotFree tbl = true ->
  s +:+ "." +:+ tbl = s' +:+ "." +:+ tbl' -> s = s' ∧ tbl = tbl'.
Proof.
  unfold dotFree. revert s'. induction s as [|c s IH]; intros s' Hs Htbl.
  - destruct s' as [|c' s']; rewrite ?append_empty, ?append_String, ?append_empty.
    + by intros [= ->].
    + intros [= <- ->]. exfalso. clear -Htbl.
      induction s' as [|c s' IH]; rewrite ?append_empty, ?append_String in Htbl;
        simpl in Htbl; [done|].
      apply andb_prop in Htbl as [_ ?]. auto.
  - simpl in Hs. apply andb_prop in Hs as [Hc Hs]. apply negb_true_iff in Hc.
    destruct s' as [|c' s']; rewrite ?append_empty, ?append_String, ?append_empty.
    + intros [= -> _]. done.
    + intros [= <- Heq]. destruct (IH s' Hs Htbl Heq) as [-> ->]. done.
Qed.

Lemma refKey_dotFree t u :
  dotFree (schemaOrEmpty t) = true -> dotFree (table t) = true ->
  refKey u = refKey t ->
  schemaOrEmpty u = schemaOrEmpty t ∧ table u = table t.
Proof.
  intros Hs Ht Hk. unfold refKey in Hk. symmetry in Hk.
  destruct (key_split _ _ _ _ Hs Ht Hk) as [-> ->]. done.
Qed.

(** ** The two loops of the policy engine *)

Lemma scanDenylist_None sch tbl denylist :
  scanDenylist sch tbl denylist = None
  ↔ ∀ deny, deny ∈ denylist -> denyMatches deny sch tbl = false.
Proof.
  induction denylist as [|deny rest IH]; simpl.
  - split; [intros _ ? []%elem_of_nil|done].
  - unfold denyMatches at 1.
    destruct (truthyOpt (deny_schema deny)) eqn:Hq.
    + destruct (truthyOpt sch && strictEq (deny_schema deny) sch
                && String.eqb (deny_table deny) tbl) eqn:Hm.
      * split; [done|]. intros H. specialize (H deny).
        unfold denyMatches in H. rewrite Hq, Hm in H. discriminate H. by left.
      * rewrite IH. split.
        -- intros H d [->|Hd]%elem_of_cons; [|by apply H].
           unfold denyMatches. by rewrite Hq.
        -- intros H d Hd. apply H. by right.
    + destruct (String.eqb (deny_table deny) tbl) eqn:Hm.
      * split; [done|]. intros H. specialize (H deny).
        unfold denyMatches in H. rewrite Hq, Hm in H. discriminate H. by left.
      * rewrite IH. split.
        -- intros H d [->|Hd]%elem_of_cons; [|by apply H].
           unfold denyMatches. by rewrite Hq.
        -- intros H d Hd. apply H. by right.
Qed.

Lemma scanDenylist_Some sch tbl denylist d :
  scanDenylist sch tbl denylist = Some d ->
  ∃ deny, deny ∈ denylist ∧ denyMatches deny sch tbl = true
          ∧ d = mkDecision true (Some (accessReason (blockedName deny tbl))).
Proof.
  induction denylist as [|deny rest IH]; simpl; [done|].
  destruct (truthyOpt (deny_schema deny)) eqn:Hq.
  - destruct (truthyOpt sch && strictEq (deny_schema deny) sch
              && String.eqb (deny_table deny) tbl) eqn:Hm.
    + intros [= <-]. exists deny. unfold denyMatches, blockedName.
      rewrite Hq, Hm. split; [by left|done].
    + intros (deny' & ? & ?)%IH. exists deny'. split; [by right|done].
  - destruct (String.eqb (deny_table deny) tbl) eqn:Hm.
    + intros [= <-]. exists deny. unfold denyMatches, blockedName.
      rewrite Hq, Hm. split; [by left|done].
    + intros (deny' & ? & ?)%IH. exists deny'. split; [by right|done].
Qed.

Lemma scanReferenced_None referenced denylist defaultSchema :
  scanReferenced referenced denylist defaultSchema = None
  ↔ ∀ t deny, t ∈ referenced -> deny ∈ denylist ->
      denyMatches deny (resolveSchema t defaultSchema) (table t) = false.
Proof.
  induction referenced as [|t rest IH]; simpl.
  - split; [intros _ ? ? []%elem_of_nil|done].
  - destruct (scanDenylist _ _ _) as [d|] eqn:Hscan.
    + split; [done|]. intros H.
      apply scanDenylist_Some in Hscan as (deny & Hin & Hm & _).
      rewrite H in Hm; [done|by left|done].
    + rewrite IH. rewrite scanDenylist_None in Hscan. split.
      * intros H u deny [->|Hu]%elem_of_cons Hd; [by apply Hscan|by apply H].
      * intros H u deny Hu Hd. apply H; [by right|done].
Qed.

Lemma scanReferenced_Some referenced denylist defaultSchema d :
  scanReferenced referenced denylist defaultSchema = Some d ->
  ∃ t deny, t ∈ referenced ∧ deny ∈ denylist
    ∧ denyMatches deny (resolveSchema t defaultSchema) (table t) = true
    ∧ d = mkDecision true (Some (accessReason (blockedName deny (table t)))).
Proof.
  induction referenced as [|t rest IH]; simpl; [done|].
  destruct (scanDenylist _ _ _) as [d'|] eqn:Hscan.
  - intros [= <-]. apply scanDenylist_Some in Hscan as (deny & Hin & Hm & ->).
    exists t, deny. split; [by left|done].
  - intros (u & deny & ? & ?)%IH. exists u, deny. split; [by right|done].
Qed.

Lemma existsb_unqualified referenced :
  existsb (fun t => negb (truthyOpt (schema t))) referenced = true
  ↔ ∃ t, t ∈ referenced ∧ unqualified t.
Proof.
  rewrite existsb_exists. unfold unqualified, qualifier, orElse.
  split; intros (t & Hin & Ht); exists t.
  - apply list_elem_of_In in Hin. apply negb_true_iff in Ht. by rewrite Ht.
  - apply list_elem_of_In in Hin. split; [done|].
    destruct (truthyOpt (schema t)) eqn:E; [|done].
    destruct (schema t); simpl in *; done.
Qed.

(** Why a decision is [blocked]: the multi-DB rule, or a denylist entry
    that matches a referenced table. *)
Lemma decide_referenced_blocked referenced denylist defaultSchema multiDbMode :
  blocked (decide_referenced referenced denylist defaultSchema multiDbMode) = true ->
  (multiDbMode = true ∧ (∃ t, t ∈ referenced ∧ unqualified t)
   ∧ decide_referenced referenced denylist defaultSchema multiDbMode
     = mkDecision true (Some unqualifiedReason))
  ∨ ((multiDbMode = false ∨ ¬ ∃ t, t ∈ referenced ∧ unqualified t)
     ∧ ∃ t deny, t ∈ referenced ∧ deny ∈ denylist
       ∧ denyMatches deny (resolveSchema t defaultSchema) (table t) = true
       ∧ decide_referenced referenced denylist defaultSchema multiDbMode
         = mkDecision true (Some (accessReason (blockedName deny (table t))))).
Proof.
  unfold decide_referenced.
  destruct (length referenced =? 0)%nat; [done|].
  destruct multiDbMode; simpl.
  - destruct (existsb _ referenced) eqn:Hex.
    + intros _. left. by rewrite existsb_unqualified in Hex.
    + destruct (scanReferenced _ _ _) as [d|] eqn:Hscan; [|done].
      intros _. right. split.
      * right. rewrite <- existsb_unqualified, Hex. done.
      * apply scanReferenced_Some in Hscan as (t & deny & ? & ? & ? & ->).
        by exists t, deny.
  - destruct (scanReferenced _ _ _) as [d|] eqn:Hscan; [|done].
    intros _. right. split; [by left|].
    apply scanReferenced_Some in Hscan as (t & deny & ? & ? & ? & ->).
    by exists t, deny.
Qed.

(** A decision is either [blocked] with a reason or [notBlocked]. *)
Lemma decide_referenced_not_blocked referenced denylist defaultSchema multiDbMode :
  blocked (decide_referenced referenced denylist defaultSchema multiDbMode) = false ->
  decide_referenced referenced denylist defaultSchema multiDbMode = notBlocked.
Proof.
  unfold decide_referenced.
  destruct (length referenced =? 0)%nat; [done|].
  destruct (multiDbMode && existsb _ referenced); [done|].
  destruct (scanReferenced _ _ _) as [d|] eqn:Hscan; [|done].
  apply scanReferenced_Some in Hscan as (t & deny & _ & _ & _ & ->). done.
Qed.

Lemma decide_referenced_single referenced denylist defaultSchema :
  blocked (decide_referenced referenced denylist defaultSchema false) = true
  ↔ ∃ t deny, t ∈ referenced ∧ deny ∈ denylist
      ∧ denyMatches deny (resolveSchema t defaultSchema) (table t) = true.
Proof.
  split.
  - intros [(? & _)|(_ & t & deny & ? & ? & ? & _)]%decide_referenced_blocked; [done|].
    by exists t, deny.
  - intros (t & deny & Ht & Hd & Hm). unfold decide_referenced.
    destruct referenced as [|r rs]; [by apply elem_of_nil in Ht|]. simpl length.
    change (S (length rs) =? 0)%nat with false. simpl andb. cbv iota.
    destruct (scanReferenced (r :: rs) denylist defaultSchema) as [d|] eqn:Hscan.
    + by apply scanReferenced_Some in Hscan as (? & ? & _ & _ & _ & ->).
    + rewrite scanReferenced_None in Hscan. by rewrite (Hscan t deny) in Hm.
Qed.

(** The test of the code is the rule of the specification. *)
Lemma resolveSchema_spec t defaultSchema :
  resolveSchema t defaultSchema = spec_resolved_schema t defaultSchema.
Proof.
  unfold resolveSchema, spec_resolved_schema, qualifier, orElse.
  destruct (truthyOpt (schema t)) eqn:Ht; cbv iota.
  - rewrite Ht. by destruct (schema t).
  - done.
Qed.

Lemma resolveSchema_truthy t defaultSchema s :
  resolveSchema t defaultSchema = Some s -> truthyStr s = true.
Proof.
  unfold resolveSchema, orElse.
  destruct (truthyOpt (schema t)) eqn:Ht; cbv iota.
  - rewrite Ht. intros E. by rewrite E in Ht.
  - destruct (truthyOpt (normalizeIdent defaultSchema)) eqn:Hd; cbv iota; [|done].
    intros E. by rewrite E in Hd.
Qed.

Lemma denyMatches_spec deny t defaultSchema :
  denyMatches deny (resolveSchema t defaultSchema) (table t) = true
  ↔ spec_entry_blocks deny (spec_resolved_schema t defaultSchema) (table t).
Proof.
  rewrite <- resolveSchema_spec.
  unfold denyMatches, spec_entry_blocks, qualifier, orElse.
  destruct (truthyOpt (deny_schema deny)) eqn:Hq; [|by rewrite String.eqb_eq].
  destruct (deny_schema deny) as [s|] eqn:Hs; [|done].
  rewrite !andb_true_iff, String.eqb_eq.
  destruct (resolveSchema t defaultSchema) as [r|] eqn:Hr; simpl.
  - rewrite String.eqb_eq. split.
    + by intros [[_ ->] ?].
    + by intros [[= ->] ?].
  - split; [by intros [[? _] _]|by intros [? _]].
Qed.

(** ** Syntax trees that differ in the spelling of identifiers *)

Lemma identEquivb_arr xs ys :
  identEquivb (JArr xs) (JArr ys) = true
  ↔ Forall2 (fun x y => identEquivb x y = true) xs ys.
Proof.
  revert ys. induction xs as [|x xs IH]; intros [|y ys]; split; intros H;
    try done; try constructor; try by inversion H.
  - change (identEquivb x y && identEquivb (JArr xs) (JArr ys) = true) in H.
    by apply andb_prop in H as [? _].
  - change (identEquivb x y && identEquivb (JArr xs) (JArr ys) = true) in H.
    apply andb_prop in H as [_ ?]. by apply IH.
  - inversion H as [|???? Hxy Hrest]; subst.
    change (identEquivb x y && identEquivb (JArr xs) (JArr ys) = true).
    apply andb_true_intro. split; [done|by apply IH].
Qed.

Lemma identEquivb_obj fs gs :
  identEquivb (JObj fs) (JObj gs) = true
  ↔ Forall2 (fun p q => p.1 = q.1 ∧ identEquivb p.2 q.2 = true) fs gs.
Proof.
  revert gs. induction fs as [|[k x] fs IH]; intros [|[k' y] gs]; split; intros H;
    try done; try by inversion H.
  - change (String.eqb k k' && identEquivb x y && identEquivb (JObj fs) (JObj gs) = true) in H.
    apply andb_prop in H as [[Hk Hxy]%andb_prop Hrest].
    constructor; [|by apply IH]. split; [by apply String.eqb_eq|done].
  - inversion H as [|???? [Hk Hxy] Hrest]; subst. simpl in Hk, Hxy. subst k'.
    change (String.eqb k k && identEquivb x y && identEquivb (JObj fs) (JObj gs) = true).
    rewrite String.eqb_refl, Hxy. simpl. by apply IH.
Qed.

Lemma getProp_identEquivb key fs gs :
  Forall2 (fun p q => p.1 = q.1 ∧ identEquivb p.2 q.2 = true) fs gs ->
  identEquivb (getProp key fs) (getProp key gs) = true.
Proof.
  induction 1 as [|[k x] [k' y] fs gs [Hk Hxy] _ IH]; simpl; [done|].
  simpl in Hk, Hxy. subst k'. by destruct (String.eqb k key).
Qed.

Lemma ownReference_identEquivb fs gs :
  Forall2 (fun p q => p.1 = q.1 ∧ identEquivb p.2 q.2 = true) fs gs ->
  ownReference fs = ownReference gs.
Proof.
  intros H. unfold ownReference.
  pose proof (getProp_identEquivb "table" _ _ H) as Ht.
  pose proof (getProp_identEquivb "db" _ _ H) as Hd.
  destruct (getProp "table" fs), (getProp "table" gs); try done.
  apply bool_decide_eq_true in Ht. rewrite Ht.
  destruct (getProp "db" fs), (getProp "db" gs); try done.
  apply bool_decide_eq_true in Hd. by rewrite Hd.
Qed.

Lemma visit_leaf node out :
  (∀ items, node ≠ JArr items) -> (∀ fields, node ≠ JObj fields) -> visit node out = out.
Proof. intros. by rewrite visit_app, visit_scalar, app_nil_r. Qed.

Lemma visit_identEquivb a b out :
  identEquivb a b = true -> visit a out = visit b out.
Proof.
  revert b out. induction a as [ | |x|x|x|xs IH|fs IH] using JsVal_nested_ind;
    intros b out Hab; destruct b as [ | |y|y|y|ys|gs]; try done;
    try by rewrite !visit_leaf.
  - apply identEquivb_arr in Hab. rewrite !visit_arr. revert out.
    induction Hab as [|x y xs ys Hxy _ IHrest]; intros out; [done|].
    apply Forall_cons in IH as [Hx Hxs]. simpl. rewrite (Hx y out Hxy). by apply IHrest.
  - apply identEquivb_obj in Hab. rewrite !visit_obj.
    rewrite (ownReference_identEquivb _ _ Hab). generalize (out ++ ownReference gs).
    induction Hab as [|[k x] [k' y] fs gs [_ Hxy] _ IHrest]; intros acc; [done|].
    apply Forall_cons in IH as [Hx Hfs]. simpl in *. rewrite (Hx y acc Hxy). by apply IHrest.
Qed.

(** ** The policy engine as a whole *)

Lemma isQueryBlockedByDenylist_referenced scope sql denylist defaultSchema multiDbMode
    referenced :
  denylist ≠ [] ->
  getReferencedTables scope sql = Ok referenced ->
  isQueryBlockedByDenylist scope sql denylist defaultSchema multiDbMode
  = Ok (decide_referenced referenced denylist defaultSchema multiDbMode).
Proof.
  intros Hne Href. unfold isQueryBlockedByDenylist. rewrite Href.
  by destruct denylist.
Qed.

Lemma getReferencedTablesFromAst_elem ast t :
  t ∈ getReferencedTablesFromAst ast ->
  ∃ fields, subnode (JObj fields) ast ∧ t ∈ ownReference fields.
Proof. intros Ht. apply elem_of_visit. by eapply dedupe_subseteq. Qed.

(** * The claims of the specification *)

(** C1.  In multi-DB mode with a non-empty denylist, a query whose
    referenced tables include one without an explicit schema is blocked,
    with a non-empty reason, whether or not a referenced table matches a
    denylist entry. *)
Theorem multi_db_unqualified_is_blocked scope sql denylist defaultSchema referenced :
  denylist ≠ [] ->
  getReferencedTables scope sql = Ok referenced ->
  (∃ t, t ∈ referenced ∧ unqualified t) ->
  ∃ why,
    isQueryBlockedByDenylist scope sql denylist defaultSchema true
    = Ok (mkDecision true (Some why))
    ∧ why ≠ "".
Proof.
  intros Hne Href Hunq. exists unqualifiedReason. split; [|done].
  rewrite (isQueryBlockedByDenylist_referenced _ _ _ _ _ referenced) by done.
  f_equal. unfold decide_referenced.
  destruct Hunq as (t & Ht & Hq).
  destruct referenced as [|r rs]; [by apply elem_of_nil in Ht|].
  change (length (r :: rs) =? 0)%nat with false. cbv iota.
  assert (existsb (fun t => negb (truthyOpt (schema t))) (r :: rs) = true) as ->; [|done].
  apply existsb_unqualified. by exists t.
Qed.

Lemma multi_db_unqualified_is_blocked_witness :
  ∃ why,
    isQueryBlockedByDenylist sampleScope "SELECT * FROM users"
      [mkDeny (Some "prod") "users"] MNull true
    = Ok (mkDecision true (Some why))
    ∧ why ≠ "".
Proof.
  apply (multi_db_unqualified_is_blocked sampleScope "SELECT * FROM users"
           [mkDeny (Some "prod") "users"] MNull [mkRef None "users"]).
  - discriminate.
  - vm_compute. reflexivity.
  - exists (mkRef None "users"). split; [left|reflexivity].
Defined.

(** C2.  In single-DB mode with a non-empty denylist the query is blocked
    exactly when some referenced table, its schema resolved against the
    default schema when it has none, matches some denylist entry by the
    rule of the specification; a query none of whose referenced tables
    matches an entry is not blocked. *)
Theorem single_db_blocked_iff_entry_matches scope sql denylist defaultSchema referenced :
  denylist ≠ [] ->
  getReferencedTables scope sql = Ok referenced ->
  ∃ d,
    isQueryBlockedByDenylist scope sql denylist defaultSchema false = Ok d
    ∧ (blocked d = true
       ↔ ∃ t deny, t ∈ referenced ∧ deny ∈ denylist
           ∧ spec_entry_blocks deny (spec_resolved_schema t defaultSchema) (table t))
    ∧ ((∀ t deny, t ∈ referenced -> deny ∈ denylist ->
          ¬ spec_entry_blocks deny (spec_resolved_schema t defaultSchema) (table t))
       -> d = notBlocked).
Proof.
  intros Hne Href. eexists. split; [by apply isQueryBlockedByDenylist_referenced|].
  assert (blocked (decide_referenced referenced denylist defaultSchema false) = true
          ↔ ∃ t deny, t ∈ referenced ∧ deny ∈ denylist
              ∧ spec_entry_blocks deny (spec_resolved_schema t defaultSchema) (table t))
    as Hiff.
  { rewrite decide_referenced_single.
    split; intros (t & deny & ? & ? & Hm); exists t, deny;
      (split; [done|split; [done|]]); by apply denyMatches_spec. }
  split; [done|].
  intros Hnone. apply decide_referenced_not_blocked, not_true_is_false.
  intros (t & deny & Ht & Hd & Hm)%Hiff. by destruct (Hnone t deny).
Qed.

Lemma single_db_blocked_iff_entry_matches_witness :
  ∃ d,
    isQueryBlockedByDenylist sampleScope "SELECT * FROM orders"
      [mkDeny (Some "prod") "users"] (MStr "prod") false = Ok d
    ∧ (blocked d = true
       ↔ ∃ t deny, t ∈ [mkRef None "orders"] ∧ deny ∈ [mkDeny (Some "prod") "users"]
           ∧ spec_entry_blocks deny (spec_resolved_schema t (MStr "prod")) (table t))
    ∧ ((∀ t deny, t ∈ [mkRef None "orders"] -> deny ∈ [mkDeny (Some "prod") "users"] ->
          ¬ spec_entry_blocks deny (spec_resolved_schema t (MStr "prod")) (table t))
       -> d = notBlocked).
Proof.
  apply (single_db_blocked_iff_entry_matches sampleScope "SELECT * FROM orders"
           [mkDeny (Some "prod") "users"] (MStr "prod") [mkRef None "orders"]).
  - discriminate.
  - vm_compute. reflexivity.
Defined.

(** C3.  When the parser throws, and when it yields no statement or more
    than one, [getReferencedTables] and [getQueryTypes] both fail: the
    first with the error itself, the second with that error wrapped as a
    parsing failure. *)
Theorem parse_failures_are_errors scope sql :
  (∀ e, astify scope sql = Throw e ->
     getReferencedTables scope sql = Throw e
     ∧ (getQueryTypes scope sql).2 = Throw (Error ("Parsing failed: " +:+ message e)))
  ∧ (∀ astOrArray, astify scope sql = Ok astOrArray ->
       length (statementsOf astOrArray) ≠ 1 ->
       getReferencedTables scope sql = Throw singleStatementError
       ∧ (getQueryTypes scope sql).2
         = Throw (Error "Parsing failed: Only single-statement SQL is allowed")).
Proof.
  split.
  - intros e He. unfold getReferencedTables, getQueryTypes. by rewrite He.
  - intros ast Hast Hlen. unfold getReferencedTables, getQueryTypes. rewrite Hast.
    destruct (statementsOf ast) as [|s1 [|s2 rest]]; simpl in *; done.
Qed.

Lemma parse_failures_are_errors_witness :
  (getReferencedTables sampleScope "SELEC" = Throw (Error "Expected a statement")
   ∧ (getQueryTypes sampleScope "SELEC").2
     = Throw (Error "Parsing failed: Expected a statement"))
  ∧ (getReferencedTables sampleScope "SELECT 1; SELECT 2" = Throw singleStatementError
     ∧ (getQueryTypes sampleScope "SELECT 1; SELECT 2").2
       = Throw (Error "Parsing failed: Only single-statement SQL is allowed")).
Proof.
  split.
  - apply (proj1 (parse_failures_are_errors sampleScope "SELEC")). reflexivity.
  - apply (proj2 (parse_failures_are_errors sampleScope "SELECT 1; SELECT 2")
             (JArr [selectNumber 1; selectNumber 2])).
    + reflexivity.
    + simpl. lia.
Defined.

(** C5.  With an empty denylist the answer is [{ blocked: false }]
    whatever the parser does with the SQL text, and so it is when the
    statement references no table. *)
Theorem empty_denylist_or_no_table_not_blocked scope sql denylist defaultSchema multiDbMode :
  isQueryBlockedByDenylist scope sql [] defaultSchema multiDbMode = Ok notBlocked
  ∧ (getReferencedTables scope sql = Ok [] ->
     isQueryBlockedByDenylist scope sql denylist defaultSchema multiDbMode = Ok notBlocked).
Proof.
  split; [done|]. intros Href. unfold isQueryBlockedByDenylist. rewrite Href.
  by destruct (length denylist =? 0)%nat.
Qed.

Lemma empty_denylist_or_no_table_not_blocked_witness :
  isQueryBlockedByDenylist sampleScope "SELEC" [] MNull true = Ok notBlocked
  ∧ isQueryBlockedByDenylist sampleScope "SELECT 1" [mkDeny None "users"] MNull true
    = Ok notBlocked.
Proof.
  split.
  - apply (proj1 (empty_denylist_or_no_table_not_blocked sampleScope "SELEC" [] MNull true)).
  - apply (proj2 (empty_denylist_or_no_table_not_blocked sampleScope "SELECT 1"
                    [mkDeny None "users"] MNull true)).
    vm_compute. reflexivity.
Defined.

Lemma schemaOrEmpty_qualifier t sch :
  schemaOrEmpty t = default "" (qualifier sch) -> qualifier (schema t) = qualifier sch.
Proof.
  unfold schemaOrEmpty, qualifier, orElse.
  destruct (schema t) as [[|c s]|], sch as [[|c' s']|]; simpl; congruence.
Qed.

Lemma schemaOrEmpty_default t : schemaOrEmpty t = default "" (qualifier (schema t)).
Proof.
  unfold schemaOrEmpty, qualifier, orElse. by destruct (schema t) as [[|c s]|].
Qed.

(** C6 (amended).  The result of the extractor has no two equal
    elements, the names in it are in normal form, and every object node
    of the tree with a string-valued [table] field whose normal form is not
    empty contributes a reference: when the names of the node are free of
    dots, the result has an element with its table and its schema (an empty
    schema counting as an absent one). *)
Theorem referenced_tables_deduplicated_normalised ast :
  NoDup (getReferencedTablesFromAst ast)
  ∧ (∀ t, t ∈ getReferencedTablesFromAst ast ->
       normalForm (table t) ∧ ∀ s, schema t = Some s -> normalForm s)
  ∧ (∀ fields maybeTable tbl sch,
       subnode (JObj fields) ast ->
       getProp "table" fields = JStr maybeTable ->
       normalizeIdent (MStr maybeTable) = Some tbl ->
       tbl ≠ "" ->
       sch = match getProp "db" fields with
             | JStr maybeDb => normalizeIdent (MStr maybeDb)
             | _ => None
             end ->
       dotFree tbl = true ->
       (∀ s, sch = Some s -> dotFree s = true) ->
       ∃ u, u ∈ getReferencedTablesFromAst ast
            ∧ table u = tbl ∧ qualifier (schema u) = qualifier sch).
Proof.
  split; [|split].
  - eapply NoDup_fmap_1, dedupe_NoDup_keys.
  - intros t (fields & _ & Hown)%getReferencedTablesFromAst_elem.
    apply ownReference_inv in Hown as (mt & _ & Hn & _ & Hsch).
    split; [by eapply normalizeIdent_normalForm|].
    intros s Hs. rewrite Hs in Hsch.
    destruct (getProp "db" fields); try done. by eapply normalizeIdent_normalForm.
  - intros fields mt tbl sch Hsub Htable Hn Hne Hsch Hdt Hds.
    assert (mkRef sch tbl ∈ visit ast []) as Hin.
    { apply elem_of_visit. exists fields. split; [done|].
      unfold ownReference. rewrite Htable, Hn, <- Hsch.
      destruct tbl; [done|]. by left. }
    destruct (dedupe_keeps_key ∅ _ _ Hin) as (u & Hu & Hk); [set_solver|].
    exists u. split; [done|].
    apply refKey_dotFree in Hk as [Hs Ht]; simpl; [|..|done].
    + split; [done|]. apply schemaOrEmpty_qualifier. rewrite Hs.
      apply schemaOrEmpty_default.
    + rewrite schemaOrEmpty_default. simpl. unfold qualifier, orElse.
      destruct (truthyOpt sch); [|done]. destruct sch; [by apply Hds|done].
Qed.

Lemma referenced_tables_deduplicated_normalised_witness :
  ∃ u, u ∈ getReferencedTablesFromAst (selectStarFrom (JStr "`App`") " Users ")
       ∧ table u = "users" ∧ qualifier (schema u) = qualifier (Some "app").
Proof.
  apply (proj2 (proj2 (referenced_tables_deduplicated_normalised
                         (selectStarFrom (JStr "`App`") " Users ")))
           [("db", JStr "`App`"); ("table", JStr " Users "); ("as", JNull)]
           " Users " "users" (Some "app")).
  - eapply (subnode_value _ _ "from"); [do 5 right; left|].
    eapply subnode_item; [left|]. constructor.
  - reflexivity.
  - vm_compute. reflexivity.
  - discriminate.
  - vm_compute. reflexivity.
  - reflexivity.
  - intros s [= <-]. reflexivity.
Defined.

(** C6 as stated fails: a node whose [table] field is a string made of
    white space is part of the tree and contributes no reference. *)
Lemma blank_table_node_contributes_nothing :
  subnode (JObj [("db", JNull); ("table", JStr " "); ("as", JNull)])
    (selectStarFrom JNull " ")
  ∧ getProp "table" [("db", JNull); ("table", JStr " "); ("as", JNull)] = JStr " "
  ∧ getReferencedTablesFromAst (selectStarFrom JNull " ") = [].
Proof.
  split; [|split; vm_compute; reflexivity].
  eapply (subnode_value _ _ "from"); [do 5 right; left|].
  eapply subnode_item; [left|]. constructor.
Qed.

(** Two different references with one key: the second is dropped. *)
Lemma dotted_names_share_a_key :
  getReferencedTablesFromAst
    (JArr [JObj [("db", JStr "a.b"); ("table", JStr "c")];
           JObj [("db", JStr "a"); ("table", JStr "b.c")]])
  = [mkRef (Some "a.b") "c"].
Proof. vm_compute. reflexivity. Qed.

Lemma getReferencedTables_identEquivb scope sql1 sql2 ast1 ast2 :
  astify scope sql1 = Ok ast1 -> astify scope sql2 = Ok ast2 ->
  identEquivb ast1 ast2 = true ->
  getReferencedTables scope sql1 = getReferencedTables scope sql2.
Proof.
  intros H1 H2 Heq. unfold getReferencedTables. rewrite H1, H2.
  destruct ast1 as [ | |x|x|x|xs|fs], ast2 as [ | |y|y|y|ys|gs]; try done;
    try (simpl; unfold getReferencedTablesFromAst; by rewrite (visit_identEquivb _ _ _ Heq)).
  apply identEquivb_arr in Heq. simpl.
  destruct Heq as [|x y xs ys Hxy [|]]; try done.
  unfold getReferencedTablesFromAst. by rewrite (visit_identEquivb _ _ _ Hxy).
Qed.

Lemma referenced_normalForm scope sql referenced t :
  getReferencedTables scope sql = Ok referenced -> t ∈ referenced ->
  normalForm (table t) ∧ ∀ s, schema t = Some s -> normalForm s.
Proof.
  unfold getReferencedTables. destruct (astify scope sql) as [ast|]; [|done].
  destruct (statementsOf ast) as [|statement [|]]; try done.
  intros [= <-] (fields & _ & Hown)%getReferencedTablesFromAst_elem.
  apply ownReference_inv in Hown as (mt & _ & Hn & _ & Hsch).
  split; [by eapply normalizeIdent_normalForm|].
  intros s Hs. rewrite Hs in Hsch.
  destruct (getProp "db" fields); try done. by eapply normalizeIdent_normalForm.
Qed.

Lemma resolveSchema_normalForm t defaultSchema s :
  (∀ s, schema t = Some s -> normalForm s) ->
  resolveSchema t defaultSchema = Some s -> normalForm s.
Proof.
  intros Ht. unfold resolveSchema, orElse.
  destruct (truthyOpt (schema t)); cbv iota.
  - destruct (truthyOpt (schema t)); [apply Ht|done].
  - destruct (truthyOpt (normalizeIdent defaultSchema)); cbv iota; [|done].
    apply normalizeIdent_normalForm.
Qed.

Lemma denyMatches_inv deny sch tbl :
  denyMatches deny sch tbl = true ->
  deny_table deny = tbl
  ∧ ∀ s, qualifier (deny_schema deny) = Some s -> sch = Some s.
Proof.
  unfold denyMatches, qualifier, orElse.
  destruct (truthyOpt (deny_schema deny)) eqn:Hq.
  - intros [[Hs Heq]%andb_prop Ht%String.eqb_eq]%andb_prop. split; [done|].
    intros s Hds. rewrite Hds in Heq. destruct sch as [r|]; [|done].
    simpl in Heq. apply String.eqb_eq in Heq. by subst.
  - intros Ht%String.eqb_eq. done.
Qed.

(** C4 (amended).  Matching is insensitive to the spelling of the
    identifiers of the query: two statements whose trees differ in the
    letter case, backtick quoting or surrounding white space of their
    strings get the same decision against the same denylist.  The entries
    of the denylist are compared as they are written: an entry blocks only
    when its names are in normal form. *)
Theorem matching_is_insensitive_on_the_query_side scope denylist defaultSchema multiDbMode :
  (∀ sql1 sql2 ast1 ast2,
     astify scope sql1 = Ok ast1 -> astify scope sql2 = Ok ast2 ->
     identEquivb ast1 ast2 = true ->
     isQueryBlockedByDenylist scope sql1 denylist defaultSchema multiDbMode
     = isQueryBlockedByDenylist scope sql2 denylist defaultSchema multiDbMode)
  ∧ (∀ sql d,
       isQueryBlockedByDenylist scope sql denylist defaultSchema multiDbMode = Ok d ->
       blocked d = true ->
       reason d ≠ Some unqualifiedReason ->
       ∃ deny, deny ∈ denylist
         ∧ normalForm (deny_table deny)
         ∧ (∀ s, qualifier (deny_schema deny) = Some s -> normalForm s)
         ∧ reason d = Some (accessReason (blockedName deny (deny_table deny)))).
Proof.
  split.
  - intros sql1 sql2 ast1 ast2 H1 H2 Heq. unfold isQueryBlockedByDenylist.
    by rewrite (getReferencedTables_identEquivb _ _ _ _ _ H1 H2 Heq).
  - intros sql d. unfold isQueryBlockedByDenylist.
    destruct (length denylist =? 0)%nat; [by intros [= <-]|].
    destruct (getReferencedTables scope sql) as [referenced|] eqn:Href; [|done].
    intros [= <-] Hb Hwhy.
    apply decide_referenced_blocked in Hb
      as [(_ & _ & Hd)|(_ & t & deny & Ht & Hdeny & Hm & Hd)];
      rewrite Hd in *; [done|].
    destruct (referenced_normalForm _ _ _ _ Href Ht) as [Htbl Hsch].
    apply denyMatches_inv in Hm as [Heq Hq].
    exists deny. rewrite Heq. split; [done|]. split; [done|]. split; [|done].
    intros s Hs. eapply resolveSchema_normalForm; [done|]. by apply Hq.
Qed.

Lemma matching_is_insensitive_on_the_query_side_witness :
  isQueryBlockedByDenylist sampleScope "SELECT * FROM `Users`" [mkDeny None "users"] MNull false
  = isQueryBlockedByDenylist sampleScope "SELECT * FROM users" [mkDeny None "users"] MNull false
  ∧ ∃ deny, deny ∈ [mkDeny None "users"]
      ∧ normalForm (deny_table deny)
      ∧ (∀ s, qualifier (deny_schema deny) = Some s -> normalForm s)
      ∧ reason (mkDecision true
                  (Some "Access to table 'users' is blocked by MYSQL_TABLE_DENYLIST"))
        = Some (accessReason (blockedName deny (deny_table deny))).
Proof.
  split.
  - apply (proj1 (matching_is_insensitive_on_the_query_side sampleScope
                    [mkDeny None "users"] MNull false)
             "SELECT * FROM `Users`" "SELECT * FROM users"
             (selectStarFrom JNull "Users") (selectStarFrom JNull "users")).
    + reflexivity.
    + reflexivity.
    + vm_compute. reflexivity.
  - apply (proj2 (matching_is_insensitive_on_the_query_side sampleScope
                    [mkDeny None "users"] MNull false)
             "SELECT * FROM `Users`").
    + vm_compute. reflexivity.
    + reflexivity.
    + discriminate.
Defined.

(** C4 as stated fails on the side of the denylist: the entries [Users]
    and [users] differ in letter case only, and the first does not block
    the query the second blocks. *)
Lemma denylist_entry_case_changes_decision :
  denyEquiv (mkDeny None "Users") (mkDeny None "users")
  ∧ isQueryBlockedByDenylist sampleScope "SELECT * FROM users"
      [mkDeny None "Users"] MNull false
    = Ok notBlocked
  ∧ isQueryBlockedByDenylist sampleScope "SELECT * FROM users"
      [mkDeny None "users"] MNull false
    = Ok (mkDecision true
            (Some "Access to table 'users' is blocked by MYSQL_TABLE_DENYLIST")).
Proof. repeat split; vm_compute; reflexivity. Qed.

(** C7.  The decision is a function of the four arguments and of what the
    parser makes of the SQL text: in two scopes with the same parser,
    whatever [MYSQL_DB] and [isMultiDbMode] are in each, and so whatever
    [extractSchemaFromQuery] answers in each, equal arguments get equal
    decisions. *)
Theorem decision_depends_on_arguments_only scope scope' sql denylist defaultSchema multiDbMode :
  astify scope sql = astify scope' sql ->
  isQueryBlockedByDenylist scope sql denylist defaultSchema multiDbMode
  = isQueryBlockedByDenylist scope' sql denylist defaultSchema multiDbMode.
Proof.
  intros Hparser. unfold isQueryBlockedByDenylist, getReferencedTables.
  by rewrite Hparser.
Qed.

Lemma decision_depends_on_arguments_only_witness :
  extractSchemaFromQuery sampleScope "SELECT * FROM orders"
  ≠ extractSchemaFromQuery legacyScope "SELECT * FROM orders"
  ∧ isQueryBlockedByDenylist sampleScope "SELECT * FROM orders"
      [mkDeny (Some "legacy") "orders"] (MStr "prod") false
    = isQueryBlockedByDenylist legacyScope "SELECT * FROM orders"
        [mkDeny (Some "legacy") "orders"] (MStr "prod") false.
Proof.
  split.
  - vm_compute. discriminate.
  - apply (decision_depends_on_arguments_only sampleScope legacyScope). reflexivity.
Defined.

(** C8 (amended).  A decision that blocks is either the one of the
    multi-DB rule or names the table of a referenced table that matches a
    denylist entry: qualified with the schema when the entry is
    schema-qualified (the schema is then the resolved schema of the table),
    and by the bare table name when the entry is schema-less. *)
Theorem blocked_reason_names_the_table scope sql denylist defaultSchema multiDbMode
    referenced d :
  getReferencedTables scope sql = Ok referenced ->
  isQueryBlockedByDenylist scope sql denylist defaultSchema multiDbMode = Ok d ->
  blocked d = true ->
  (multiDbMode = true ∧ reason d = Some unqualifiedReason)
  ∨ ∃ t deny, t ∈ referenced ∧ deny ∈ denylist ∧ deny_table deny = table t
      ∧ match qualifier (deny_schema deny) with
        | Some s =>
            resolveSchema t defaultSchema = Some s
            ∧ reason d = Some (accessReason (s +:+ "." +:+ table t))
        | None => reason d = Some (accessReason (table t))
        end.
Proof.
  intros Href. unfold isQueryBlockedByDenylist. rewrite Href.
  destruct (length denylist =? 0)%nat; [by intros [= <-]|].
  intros [= <-] Hb.
  apply decide_referenced_blocked in Hb
    as [(Hm & _ & Hd)|(_ & t & deny & Ht & Hdeny & Hm & Hd)]; rewrite Hd; simpl.
  - by left.
  - right. exists t, deny. apply denyMatches_inv in Hm as [Heq Hq].
    split; [done|]. split; [done|]. split; [done|].
    unfold blockedName. unfold qualifier, orElse in *.
    destruct (deny_schema deny) as [s|]; simpl in *; [|done].
    destruct (truthyStr s); [|done].
    split; [by apply Hq|]. by rewrite Heq.
Qed.

Lemma blocked_reason_names_the_table_witness :
  (true = true
   ∧ reason (mkDecision true
               (Some "Access to table 'prod.users' is blocked by MYSQL_TABLE_DENYLIST"))
     = Some unqualifiedReason)
  ∨ ∃ t deny, t ∈ [mkRef (Some "prod") "users"] ∧ deny ∈ [mkDeny (Some "prod") "users"]
      ∧ deny_table deny = table t
      ∧ match qualifier (deny_schema deny) with
        | Some s =>
            resolveSchema t MNull = Some s
            ∧ reason (mkDecision true
                        (Some "Access to table 'prod.users' is blocked by MYSQL_TABLE_DENYLIST"))
              = Some (accessReason (s +:+ "." +:+ table t))
        | None =>
            reason (mkDecision true
                      (Some "Access to table 'prod.users' is blocked by MYSQL_TABLE_DENYLIST"))
            = Some (accessReason (table t))
        end.
Proof.
  apply (blocked_reason_names_the_table sampleScope "SELECT * FROM prod.users"
           [mkDeny (Some "prod") "users"] MNull true).
  - vm_compute. reflexivity.
  - vm_compute. reflexivity.
  - reflexivity.
Defined.

(** C8 as stated fails: the schema of [prod.users] is explicit in the
    query, and the reason of the schema-less entry that blocks it names
    [users] without the schema. *)
Lemma schema_less_entry_names_the_bare_table :
  getReferencedTables sampleScope "SELECT * FROM prod.users"
  = Ok [mkRef (Some "prod") "users"]
  ∧ isQueryBlockedByDenylist sampleScope "SELECT * FROM prod.users"
      [mkDeny None "users"] MNull true
    = Ok (mkDecision true
            (Some "Access to table 'users' is blocked by MYSQL_TABLE_DENYLIST"))
  ∧ includes "Access to table 'users' is blocked by MYSQL_TABLE_DENYLIST" "prod.users"
    = false.
Proof. repeat split; vm_compute; reflexivity. Qed.

(** C9.  In read-only mode a statement classified as insert, update,
    delete or ddl whose allow flag is disabled gets an error result, and the
    connection is not called at all: no transaction is begun. *)
Theorem read_only_blocks_before_any_transaction classify database elapsed flags sql kind :
  classify sql = Ok kind ->
  kind ∈ [KInsert; KUpdate; KDelete; KDdl] ->
  requiredFlag flags kind = Some false ->
  ∃ result calls,
    executeReadOnlyQuery classify database elapsed flags sql [] = (result, calls)
    ∧ isError result = true
    ∧ BeginTransaction ∉ calls.
Proof.
  intros Hkind _ Hflag. exists (blockedResult kind), [].
  unfold executeReadOnlyQuery. rewrite Hkind, Hflag.
  split; [done|]. split; [done|]. apply not_elem_of_nil.
Qed.

Lemma read_only_blocks_before_any_transaction_witness :
  ∃ result calls,
    executeReadOnlyQuery (fun _ => Ok KInsert) (fun _ => Ok "[]") "Query execution time: 1 ms"
      (mkFlags false false false false) "INSERT INTO test (name) VALUES (1)" []
    = (result, calls)
    ∧ isError result = true
    ∧ BeginTransaction ∉ calls.
Proof.
  apply (read_only_blocks_before_any_transaction (fun _ => Ok KInsert) (fun _ => Ok "[]")
           "Query execution time: 1 ms" (mkFlags false false false false)
           "INSERT INTO test (name) VALUES (1)" KInsert).
  - reflexivity.
  - left.
  - reflexivity.
Defined.

(** A statement that is let through does begin a transaction, and rolls
    it back. *)
Lemma read_only_select_runs_in_a_transaction classify database elapsed flags sql :
  classify sql = Ok KSelect ->
  (executeReadOnlyQuery classify database elapsed flags sql []).2
  = [GetConnection; Query "SET SESSION TRANSACTION READ ONLY"; BeginTransaction;
     Query sql; Rollback; Query "SET SESSION TRANSACTION READ WRITE"; Release].
Proof. intros Hkind. unfold executeReadOnlyQuery. by rewrite Hkind. Qed.

(** C10.  In single-DB mode without a default schema, a denylist entry
    that blocks a table referenced without a schema is schema-less: the
    entry the reason names matches the table by its name and has no schema
    when the table has none, and a denylist of schema-qualified entries
    blocks no query whose tables are all unqualified. *)
Theorem unresolved_reference_blocked_by_schema_less_entry_only
    scope sql denylist defaultSchema referenced :
  defaultSchema ∈ [MNull; MUndefined; MStr ""] ->
  denylist ≠ [] ->
  getReferencedTables scope sql = Ok referenced ->
  ∃ d,
    isQueryBlockedByDenylist scope sql denylist defaultSchema false = Ok d
    ∧ (blocked d = true ->
       ∃ t deny, t ∈ referenced ∧ deny ∈ denylist ∧ deny_table deny = table t
         ∧ reason d = Some (accessReason (blockedName deny (table t)))
         ∧ (unqualified t -> qualifier (deny_schema deny) = None))
    ∧ ((∀ t, t ∈ referenced -> unqualified t) ->
       (∀ deny, deny ∈ denylist -> qualifier (deny_schema deny) ≠ None) ->
       d = notBlocked).
Proof.
  intros Hds Hne Href.
  assert (normalizeIdent defaultSchema = None) as Hnone.
  { repeat (apply elem_of_cons in Hds as [->|Hds]; [done|]). by apply elem_of_nil in Hds. }
  assert (∀ t deny, unqualified t ->
            denyMatches deny (resolveSchema t defaultSchema) (table t) = true ->
            qualifier (deny_schema deny) = None) as Hpair.
  { intros t deny Hunq [_ Hq]%denyMatches_inv.
    destruct (qualifier (deny_schema deny)) as [s|] eqn:Hs; [|done].
    specialize (Hq s eq_refl). unfold resolveSchema in Hq. rewrite Hnone in Hq.
    unfold unqualified, qualifier in Hunq. by rewrite Hunq in Hq. }
  eexists. split; [by apply isQueryBlockedByDenylist_referenced|]. split.
  - intros [(? & _)|(_ & t & deny & Ht & Hd & Hm & Hwhy)]%decide_referenced_blocked; [done|].
    exists t, deny. rewrite Hwhy. repeat split; try done.
    + by apply denyMatches_inv in Hm as [? _].
    + intros Hunq. by eapply Hpair.
  - intros Hall Hqual. apply decide_referenced_not_blocked, not_true_is_false.
    intros (t & deny & Ht & Hd & Hm)%decide_referenced_single.
    apply (Hqual deny Hd). eapply Hpair; [by apply Hall|done].
Qed.

Lemma unresolved_reference_blocked_by_schema_less_entry_only_witness :
  ∃ d,
    isQueryBlockedByDenylist sampleScope "SELECT * FROM users"
      [mkDeny (Some "prod") "users"] MNull false = Ok d
    ∧ (blocked d = true ->
       ∃ t deny, t ∈ [mkRef None "users"] ∧ deny ∈ [mkDeny (Some "prod") "users"]
         ∧ deny_table deny = table t
         ∧ reason d = Some (accessReason (blockedName deny (table t)))
         ∧ (unqualified t -> qualifier (deny_schema deny) = None))
    ∧ ((∀ t, t ∈ [mkRef None "users"] -> unqualified t) ->
       (∀ deny, deny ∈ [mkDeny (Some "prod") "users"] -> qualifier (deny_schema deny) ≠ None) ->
       d = notBlocked).
Proof.
  apply (unresolved_reference_blocked_by_schema_less_entry_only sampleScope
           "SELECT * FROM users" [mkDeny (Some "prod") "users"] MNull [mkRef None "users"]).
  - left.
  - discriminate.
  - vm_compute. reflexivity.
Defined.

(** * Scenarios *)

(** The four cases of the unit tests of the denylist. *)
Example blocks_denylisted_qualified_table :
  isQueryBlockedByDenylist sampleScope "SELECT * FROM prod.users"
    [mkDeny (Some "prod") "users"] MNull true
  = Ok (mkDecision true
          (Some "Access to table 'prod.users' is blocked by MYSQL_TABLE_DENYLIST")).
Proof. vm_compute. reflexivity. Qed.

Example blocks_join_on_denylisted_table :
  isQueryBlockedByDenylist sampleScope
    "SELECT * FROM app.orders o JOIN app.users u ON u.id = o.user_id"
    [mkDeny (Some "app") "users"] MNull false
  = Ok (mkDecision true
          (Some "Access to table 'app.users' is blocked by MYSQL_TABLE_DENYLIST")).
Proof. vm_compute. reflexivity. Qed.

Example blocks_unqualified_in_multi_db_mode :
  isQueryBlockedByDenylist sampleScope "SELECT * FROM users"
    [mkDeny (Some "prod") "users"] MNull true
  = Ok (mkDecision true (Some unqualifiedReason)).
Proof. vm_compute. reflexivity. Qed.

Example allows_unqualified_in_single_db_mode :
  isQueryBlockedByDenylist sampleScope "SELECT * FROM orders"
    [mkDeny (Some "prod") "users"] (MStr "prod") false
  = Ok notBlocked.
Proof. vm_compute. reflexivity. Qed.

(** The traversal takes the table aliases of column references for
    tables. *)
Example join_references :
  getReferencedTables sampleScope
    "SELECT * FROM app.orders o JOIN app.users u ON u.id = o.user_id"
  = Ok [mkRef (Some "app") "orders"; mkRef (Some "app") "users";
        mkRef None "u"; mkRef None "o"].
Proof. vm_compute. reflexivity. Qed.

Example normalizeIdent_quoted : normalizeIdent (MStr " `Users` ") = Some "users".
Proof. vm_compute. reflexivity. Qed.

Example normalizeIdent_backticks_only : normalizeIdent (MStr "``") = Some "".
Proof. vm_compute. reflexivity. Qed.

Example getQueryTypes_select :
  getQueryTypes sampleScope "SELECT 1"
  = ([mkLog "info" [LogText "Parsing SQL query: "; LogText "SELECT 1"]], Ok ["select"]).
Proof. vm_compute. reflexivity. Qed.

Example extractSchema_use :
  extractSchemaFromQuery sampleScope "use `shop`; select 1" = Some "shop".
Proof. vm_compute. reflexivity. Qed.

Example extractSchema_qualified_name :
  extractSchemaFromQuery sampleScope "SELECT * FROM prod.users" = Some "prod".
Proof. vm_compute. reflexivity. Qed.

(** The heuristic misfires on a word that ends in [use]. *)
Example extractSchema_misfire :
  extractSchemaFromQuery sampleScope "SELECT * FROM house WHERE id = 1" = Some "WHERE".
Proof. vm_compute. reflexivity. Qed.

Example extractSchema_default :
  extractSchemaFromQuery legacyScope "SELECT * FROM prod.users" = Some "legacy".
Proof. vm_compute. reflexivity. Qed.

(** * Further properties of the module *)

(** ** [normalizeIdent] *)

(** X1.  [normalizeIdent] is idempotent on what it returns, the empty
    string apart (which it maps to [undefined]). *)
Theorem normalizeIdent_idempotent part s :
  normalizeIdent part = Some s -> s ≠ "" ->
  normalizeIdent (MStr s) = Some s.
Proof.
  intros Hn Hs. apply normalizeIdent_fixed.
  - by eapply normalizeIdent_normalForm.
  - by destruct s.
Qed.

Lemma normalizeIdent_idempotent_witness :
  normalizeIdent (MStr "users") = Some "users".
Proof.
  apply (normalizeIdent_idempotent (MStr " `Users` ") "users").
  - vm_compute. reflexivity.
  - discriminate.
Defined.

(** X2.  Two non-empty names that are equal once their backticks are
    removed and their letters lower-cased have the same normal form. *)
Theorem normalizeIdent_ignores_case_and_backticks s1 s2 :
  s1 ≠ "" -> s2 ≠ "" ->
  toLowerCase (removeBackticks s1) = toLowerCase (removeBackticks s2) ->
  normalizeIdent (MStr s1) = normalizeIdent (MStr s2).
Proof.
  intros H1 H2 Heq. destruct s1 as [|c1 r1]; [done|]. destruct s2 as [|c2 r2]; [done|].
  unfold normalizeIdent. cbn [truthyStr negb].
  by rewrite <- !trim_toLowerCase, Heq.
Qed.

Lemma normalizeIdent_ignores_case_and_backticks_witness :
  normalizeIdent (MStr "`Users`") = normalizeIdent (MStr "USERS").
Proof.
  apply (normalizeIdent_ignores_case_and_backticks "`Users`" "USERS").
  - discriminate.
  - discriminate.
  - vm_compute. reflexivity.
Defined.

(** ** The extractor *)

(** X3.  The extractor invents nothing: every reference it returns has a
    non-empty table name and comes from an object node of the tree whose
    [table] field is a string with that normal form, the schema being the
    normal form of the node's [db] field when that is a string. *)
Theorem extracted_reference_comes_from_a_node ast t :
  t ∈ getReferencedTablesFromAst ast ->
  table t ≠ ""
  ∧ ∃ fields maybeTable,
      subnode (JObj fields) ast
      ∧ getProp "table" fields = JStr maybeTable
      ∧ normalizeIdent (MStr maybeTable) = Some (table t)
      ∧ schema t = match getProp "db" fields with
                   | JStr maybeDb => normalizeIdent (MStr maybeDb)
                   | _ => None
                   end.
Proof.
  intros (fields & Hsub & Hown)%getReferencedTablesFromAst_elem.
  apply ownReference_inv in Hown as (mt & Htable & Hn & Htruthy & Hsch).
  split; [by destruct (table t)|]. by exists fields, mt.
Qed.

Lemma extracted_reference_comes_from_a_node_witness :
  table (mkRef None "u") ≠ ""
  ∧ ∃ fields maybeTable,
      subnode (JObj fields) selectJoin
      ∧ getProp "table" fields = JStr maybeTable
      ∧ normalizeIdent (MStr maybeTable) = Some (table (mkRef None "u"))
      ∧ schema (mkRef None "u") = match getProp "db" fields with
                                   | JStr maybeDb => normalizeIdent (MStr maybeDb)
                                   | _ => None
                                   end.
Proof.
  apply (extracted_reference_comes_from_a_node selectJoin (mkRef None "u")).
  apply list_elem_of_In. vm_compute. auto.
Defined.

Lemma NoDup_fmap_eq {A B} (f : A -> B) (l : list A) x y :
  NoDup (f <$> l) -> x ∈ l -> y ∈ l -> f x = f y -> x = y.
Proof.
  induction l as [|a l IH]; [by intros _ ?%elem_of_nil|].
  rewrite fmap_cons. intros [Ha Hl]%NoDup_cons.
  intros [->|Hx]%elem_of_cons [->|Hy]%elem_of_cons Hxy; [done|..].
  - destruct Ha. rewrite Hxy. by apply list_elem_of_fmap_2.
  - destruct Ha. rewrite <- Hxy. by apply list_elem_of_fmap_2.
  - by apply IH.
Qed.

Lemma dedupe_sublist seen out : sublist (dedupe seen out) out.
Proof.
  revert seen. induction out as [|t rest IH]; intros seen; simpl; [constructor|].
  case_bool_decide; [apply sublist_cons|apply sublist_skip]; apply IH.
Qed.

(** X4.  The result lists the references in the order in which the
    traversal pushes them, and no two different elements of it have the
    same table and the same schema, an empty schema counting as absent. *)
Theorem extracted_references_in_order_and_distinct ast :
  sublist (getReferencedTablesFromAst ast) (visit ast [])
  ∧ ∀ t u, t ∈ getReferencedTablesFromAst ast -> u ∈ getReferencedTablesFromAst ast ->
      table t = table u -> qualifier (schema t) = qualifier (schema u) -> t = u.
Proof.
  split; [apply dedupe_sublist|].
  intros t u Ht Hu Htable Hq.
  apply (NoDup_fmap_eq refKey (getReferencedTablesFromAst ast)); try done.
  - apply dedupe_NoDup_keys.
  - unfold refKey. by rewrite !schemaOrEmpty_default, Hq, Htable.
Qed.

Lemma extracted_references_in_order_and_distinct_witness :
  mkRef (Some "app") "users" = mkRef (Some "app") "users".
Proof.
  apply (proj2 (extracted_references_in_order_and_distinct selectJoin)).
  - apply list_elem_of_In. vm_compute. auto.
  - apply list_elem_of_In. vm_compute. auto.
  - reflexivity.
  - reflexivity.
Defined.

(** X5.  Every object node whose [table] field gives it a reference is
    represented in the result by an element with the same key
    [schema.table]. *)
Theorem node_reference_is_represented ast fields r :
  subnode (JObj fields) ast -> r ∈ ownReference fields ->
  ∃ u, u ∈ getReferencedTablesFromAst ast ∧ refKey u = refKey r.
Proof.
  intros Hsub Hown. apply dedupe_keeps_key.
  - apply elem_of_visit. by exists fields.
  - apply not_elem_of_empty.
Qed.

Lemma node_reference_is_represented_witness :
  ∃ u, u ∈ getReferencedTablesFromAst
             (JArr [JObj [("db", JStr "a.b"); ("table", JStr "c")];
                    JObj [("db", JStr "a"); ("table", JStr "b.c")]])
       ∧ refKey u = refKey (mkRef (Some "a") "b.c").
Proof.
  apply (node_reference_is_represented
           (JArr [JObj [("db", JStr "a.b"); ("table", JStr "c")];
                  JObj [("db", JStr "a"); ("table", JStr "b.c")]])
           [("db", JStr "a"); ("table", JStr "b.c")]).
  - eapply subnode_item; [right; left|]. constructor.
  - apply list_elem_of_In. vm_compute. auto.
Defined.

(** ** The policy engine *)

Lemma decide_referenced_blocked_iff referenced denylist defaultSchema multiDbMode :
  blocked (decide_referenced referenced denylist defaultSchema multiDbMode) = true
  ↔ (multiDbMode = true ∧ ∃ t, t ∈ referenced ∧ unqualified t)
    ∨ ∃ t deny, t ∈ referenced ∧ deny ∈ denylist
        ∧ denyMatches deny (resolveSchema t defaultSchema) (table t) = true.
Proof.
  split.
  - intros [(? & ? & _)|(_ & t & deny & ? & ? & ? & _)]%decide_referenced_blocked;
      [by left|right; by exists t, deny].
  - intros H.
    assert (∃ t, t ∈ referenced) as (r & Hr).
    { destruct H as [(_ & t & ? & _)|(t & _ & ? & _)]; by exists t. }
    unfold decide_referenced.
    destruct referenced as [|r0 rs]; [by apply elem_of_nil in Hr|].
    change (length (r0 :: rs) =? 0)%nat with false. cbv iota.
    destruct (multiDbMode && existsb _ (r0 :: rs)) eqn:Hrule; [done|].
    destruct (scanReferenced (r0 :: rs) denylist defaultSchema) as [d|] eqn:Hscan.
    + by apply scanReferenced_Some in Hscan as (? & ? & _ & _ & _ & ->).
    + rewrite scanReferenced_None in Hscan.
      destruct H as [(-> & Hunq)|(t & deny & Ht & Hd & Hm)].
      * apply existsb_unqualified in Hunq. by rewrite Hunq in Hrule.
      * by rewrite (Hscan t deny) in Hm.
Qed.

Lemma isQueryBlockedByDenylist_inv scope sql denylist defaultSchema multiDbMode d :
  isQueryBlockedByDenylist scope sql denylist defaultSchema multiDbMode = Ok d ->
  (denylist = [] ∧ d = notBlocked)
  ∨ (denylist ≠ []
     ∧ ∃ referenced, getReferencedTables scope sql = Ok referenced
         ∧ d = decide_referenced referenced denylist defaultSchema multiDbMode).
Proof.
  unfold isQueryBlockedByDenylist. destruct denylist as [|deny rest].
  - intros [= <-]. by left.
  - change (length (deny :: rest) =? 0)%nat with false. cbv iota.
    destruct (getReferencedTables scope sql) as [referenced|]; [|done].
    intros [= <-]. right. split; [done|]. by exists referenced.
Qed.

(** X6.  With a non-empty denylist a decision is returned only for a
    text the parser turned into exactly one statement: a parser failure is
    thrown on, and any other number of statements throws the
    single-statement error. *)
Theorem nonempty_denylist_fails_closed scope sql denylist defaultSchema multiDbMode :
  denylist ≠ [] ->
  (∀ d, isQueryBlockedByDenylist scope sql denylist defaultSchema multiDbMode = Ok d ->
     ∃ astOrArray statement,
       astify scope sql = Ok astOrArray ∧ statementsOf astOrArray = [statement])
  ∧ (∀ e, astify scope sql = Throw e ->
       isQueryBlockedByDenylist scope sql denylist defaultSchema multiDbMode = Throw e)
  ∧ (∀ astOrArray, astify scope sql = Ok astOrArray ->
       length (statementsOf astOrArray) ≠ 1 ->
       isQueryBlockedByDenylist scope sql denylist defaultSchema multiDbMode
       = Throw singleStatementError).
Proof.
  intros Hne. unfold isQueryBlockedByDenylist, getReferencedTables.
  destruct denylist as [|deny rest]; [done|].
  change (length (deny :: rest) =? 0)%nat with false. cbv iota.
  destruct (astify scope sql) as [ast|e0]; (split; [|split]); try done.
  - intros d. destruct (statementsOf ast) as [|statement [|]] eqn:Hs; try done.
    intros _. by exists ast, statement.
  - intros ? [= <-] Hlen. by destruct (statementsOf ast) as [|statement [|]].
  - by intros ? [= <-].
Qed.

Lemma nonempty_denylist_fails_closed_witness :
  isQueryBlockedByDenylist sampleScope "SELECT 1; SELECT 2" [mkDeny None "users"] MNull false
  = Throw singleStatementError.
Proof.
  apply (proj2 (proj2 (nonempty_denylist_fails_closed sampleScope "SELECT 1; SELECT 2"
                         [mkDeny None "users"] MNull false ltac:(discriminate)))
           (JArr [selectNumber 1; selectNumber 2])).
  - reflexivity.
  - simpl. lia.
Defined.

(** X7.  A decision either blocks and carries a non-empty reason, or is
    exactly [{ blocked: false }], without a reason. *)
Theorem decision_has_reason_iff_blocked scope sql denylist defaultSchema multiDbMode d :
  isQueryBlockedByDenylist scope sql denylist defaultSchema multiDbMode = Ok d ->
  (blocked d = true ∧ ∃ why, reason d = Some why ∧ why ≠ "") ∨ d = notBlocked.
Proof.
  intros [[_ ->]|(_ & referenced & _ & ->)]%isQueryBlockedByDenylist_inv; [by right|].
  destruct (blocked (decide_referenced referenced denylist defaultSchema multiDbMode))
    eqn:Hb; [left|right; by apply decide_referenced_not_blocked].
  split; [done|].
  apply decide_referenced_blocked in Hb as [(_ & _ & ->)|(_ & t & deny & _ & _ & _ & ->)];
    eexists; (split; [reflexivity|done]).
Qed.

Lemma decision_has_reason_iff_blocked_witness :
  (blocked notBlocked = true ∧ ∃ why, reason notBlocked = Some why ∧ why ≠ "")
  ∨ notBlocked = notBlocked.
Proof.
  apply (decision_has_reason_iff_blocked sampleScope "SELECT * FROM orders"
           [mkDeny (Some "prod") "users"] (MStr "prod") false).
  vm_compute. reflexivity.
Defined.

(** X8.  Whether a query is blocked does not depend on the order of the
    denylist: two denylists with the same entries block the same queries
    and fail on the same queries (the reason may name a different entry). *)
Theorem blocked_is_independent_of_denylist_order scope sql denylist denylist'
    defaultSchema multiDbMode :
  denylist ≡ₚ denylist' ->
  match isQueryBlockedByDenylist scope sql denylist defaultSchema multiDbMode,
        isQueryBlockedByDenylist scope sql denylist' defaultSchema multiDbMode with
  | Ok d, Ok d' => blocked d = blocked d'
  | Throw e, Throw e' => e = e'
  | _, _ => False
  end.
Proof.
  intros Hperm. unfold isQueryBlockedByDenylist.
  rewrite <- (Permutation_length Hperm).
  destruct (length denylist =? 0)%nat; [done|].
  destruct (getReferencedTables scope sql) as [referenced|]; [|done].
  apply eq_true_iff_eq. rewrite !decide_referenced_blocked_iff.
  split; (intros [?|(t & deny & ? & Hd & ?)]; [by left|right]); exists t, deny;
    (split; [done|split; [|done]]); [by rewrite <- Hperm|by rewrite Hperm].
Qed.

Lemma blocked_is_independent_of_denylist_order_witness :
  match isQueryBlockedByDenylist sampleScope "SELECT * FROM prod.users"
          [mkDeny None "users"; mkDeny (Some "prod") "users"] MNull false,
        isQueryBlockedByDenylist sampleScope "SELECT * FROM prod.users"
          [mkDeny (Some "prod") "users"; mkDeny None "users"] MNull false with
  | Ok d, Ok d' => blocked d = blocked d'
  | Throw e, Throw e' => e = e'
  | _, _ => False
  end.
Proof.
  apply (blocked_is_independent_of_denylist_order sampleScope "SELECT * FROM prod.users"
           [mkDeny None "users"; mkDeny (Some "prod") "users"]
           [mkDeny (Some "prod") "users"; mkDeny None "users"] MNull false).
  apply perm_swap.
Defined.

(** X9.  Adding entries to the denylist never unblocks a query. *)
Theorem larger_denylist_blocks_more scope sql denylist denylist' defaultSchema multiDbMode d :
  denylist ⊆ denylist' ->
  isQueryBlockedByDenylist scope sql denylist defaultSchema multiDbMode = Ok d ->
  blocked d = true ->
  ∃ d', isQueryBlockedByDenylist scope sql denylist' defaultSchema multiDbMode = Ok d'
        ∧ blocked d' = true.
Proof.
  intros Hsub [[_ ->]|(Hne & referenced & Href & ->)]%isQueryBlockedByDenylist_inv Hb;
    [done|].
  assert (denylist' ≠ []) as Hne'.
  { destruct denylist as [|deny rest]; [done|]. intros ->.
    by apply (elem_of_nil deny), Hsub; left. }
  eexists. split; [by apply isQueryBlockedByDenylist_referenced|].
  apply decide_referenced_blocked_iff. apply decide_referenced_blocked_iff in Hb.
  destruct Hb as [?|(t & deny & ? & Hd & ?)]; [by left|right].
  exists t, deny. split; [done|]. split; [by apply Hsub|done].
Qed.

Lemma larger_denylist_blocks_more_witness :
  ∃ d', isQueryBlockedByDenylist sampleScope "SELECT * FROM prod.users"
          [mkDeny (Some "prod") "orders"; mkDeny (Some "prod") "users"] MNull false = Ok d'
        ∧ blocked d' = true.
Proof.
  apply (larger_denylist_blocks_more sampleScope "SELECT * FROM prod.users"
           [mkDeny (Some "prod") "users"]
           [mkDeny (Some "prod") "orders"; mkDeny (Some "prod") "users"] MNull false
           (mkDecision true
              (Some "Access to table 'prod.users' is blocked by MYSQL_TABLE_DENYLIST"))).
  - intros deny ->%list_elem_of_singleton. right; left.
  - vm_compute. reflexivity.
  - reflexivity.
Defined.

(** X10.  Multi-DB mode is at least as strict as single-DB mode: a query
    blocked with [multiDbMode = false] is blocked with [multiDbMode = true]. *)
Theorem multi_db_mode_is_stricter scope sql denylist defaultSchema d :
  isQueryBlockedByDenylist scope sql denylist defaultSchema false = Ok d ->
  blocked d = true ->
  ∃ d', isQueryBlockedByDenylist scope sql denylist defaultSchema true = Ok d'
        ∧ blocked d' = true.
Proof.
  intros [[_ ->]|(Hne & referenced & Href & ->)]%isQueryBlockedByDenylist_inv Hb; [done|].
  eexists. split; [by apply isQueryBlockedByDenylist_referenced|].
  apply decide_referenced_blocked_iff. apply decide_referenced_blocked_iff in Hb.
  destruct Hb as [[? _]|?]; [done|by right].
Qed.

Lemma multi_db_mode_is_stricter_witness :
  ∃ d', isQueryBlockedByDenylist sampleScope "SELECT * FROM users"
          [mkDeny None "users"] MNull true = Ok d'
        ∧ blocked d' = true.
Proof.
  apply (multi_db_mode_is_stricter sampleScope "SELECT * FROM users"
           [mkDeny None "users"] MNull
           (mkDecision true
              (Some "Access to table 'users' is blocked by MYSQL_TABLE_DENYLIST"))).
  - vm_compute. reflexivity.
  - reflexivity.
Defined.

Lemma resolveSchema_qualified t defaultSchema :
  qualifier (schema t) ≠ None -> resolveSchema t defaultSchema = schema t.
Proof.
  unfold qualifier, resolveSchema, orElse.
  destruct (truthyOpt (schema t)) eqn:Ht; [|done]. by rewrite Ht.
Qed.

Lemma scanReferenced_qualified referenced denylist defaultSchema defaultSchema' :
  (∀ t, t ∈ referenced -> qualifier (schema t) ≠ None) ->
  scanReferenced referenced denylist defaultSchema
  = scanReferenced referenced denylist defaultSchema'.
Proof.
  induction referenced as [|t rest IH]; intros Hq; simpl; [done|].
  rewrite !(resolveSchema_qualified t) by (apply Hq; by left).
  rewrite IH; [done|]. intros u Hu. apply Hq. by right.
Qed.

(** X11.  When every referenced table carries its own schema, neither the
    default schema nor the mode has any influence on the decision. *)
Theorem qualified_query_ignores_default_schema_and_mode scope sql denylist referenced
    defaultSchema defaultSchema' multiDbMode multiDbMode' :
  getReferencedTables scope sql = Ok referenced ->
  (∀ t, t ∈ referenced -> qualifier (schema t) ≠ None) ->
  isQueryBlockedByDenylist scope sql denylist defaultSchema multiDbMode
  = isQueryBlockedByDenylist scope sql denylist defaultSchema' multiDbMode'.
Proof.
  intros Href Hq. unfold isQueryBlockedByDenylist. rewrite Href.
  destruct (length denylist =? 0)%nat; [done|]. f_equal. unfold decide_referenced.
  destruct (length referenced =? 0)%nat; [done|].
  assert (existsb (fun t => negb (truthyOpt (schema t))) referenced = false) as ->.
  { apply not_true_is_false. intros (t & Ht & Hunq)%existsb_unqualified.
    by apply (Hq t Ht). }
  rewrite !andb_false_r. by rewrite (scanReferenced_qualified _ _ _ defaultSchema').
Qed.

Lemma qualified_query_ignores_default_schema_and_mode_witness :
  isQueryBlockedByDenylist sampleScope "SELECT * FROM prod.users"
    [mkDeny (Some "legacy") "users"] (MStr "legacy") false
  = isQueryBlockedByDenylist sampleScope "SELECT * FROM prod.users"
      [mkDeny (Some "legacy") "users"] MNull true.
Proof.
  apply (qualified_query_ignores_default_schema_and_mode sampleScope
           "SELECT * FROM prod.users" [mkDeny (Some "legacy") "users"]
           [mkRef (Some "prod") "users"]).
  - vm_compute. reflexivity.
  - intros t ->%list_elem_of_singleton. discriminate.
Defined.

(** X12.  A denylist entry that names a referenced table blocks the
    query in every mode and under every default schema, when the entry is
    schema-less or its schema is the explicit schema of the table. *)
Theorem entry_naming_a_referenced_table_blocks scope sql denylist referenced t deny
    defaultSchema multiDbMode :
  getReferencedTables scope sql = Ok referenced ->
  t ∈ referenced -> deny ∈ denylist ->
  deny_table deny = table t ->
  qualifier (deny_schema deny) = None
  ∨ qualifier (deny_schema deny) = qualifier (schema t) ->
  ∃ d, isQueryBlockedByDenylist scope sql denylist defaultSchema multiDbMode = Ok d
       ∧ blocked d = true.
Proof.
  intros Href Ht Hd Htable Hschema.
  assert (denylist ≠ []) as Hne by (intros ->; by apply elem_of_nil in Hd).
  eexists. split; [by apply isQueryBlockedByDenylist_referenced|].
  apply decide_referenced_blocked_iff. right. exists t, deny.
  split; [done|]. split; [done|]. apply denyMatches_spec.
  unfold spec_entry_blocks, spec_resolved_schema.
  destruct (qualifier (deny_schema deny)) as [s|] eqn:Hs; [|done].
  destruct Hschema as [?|<-]; done.
Qed.

Lemma entry_naming_a_referenced_table_blocks_witness :
  ∃ d, isQueryBlockedByDenylist sampleScope "SELECT * FROM prod.users"
         [mkDeny (Some "prod") "users"] (MStr "legacy") false = Ok d
       ∧ blocked d = true.
Proof.
  apply (entry_naming_a_referenced_table_blocks sampleScope "SELECT * FROM prod.users"
           [mkDeny (Some "prod") "users"] [mkRef (Some "prod") "users"]
           (mkRef (Some "prod") "users") (mkDeny (Some "prod") "users")).
  - vm_compute. reflexivity.
  - left.
  - left.
  - reflexivity.
  - right. reflexivity.
Defined.

Lemma scanDenylist_first sch tbl denylist d :
  scanDenylist sch tbl denylist = Some d ->
  ∃ before deny after,
    denylist = before ++ deny :: after
    ∧ (∀ e, e ∈ before -> denyMatches e sch tbl = false)
    ∧ denyMatches deny sch tbl = true
    ∧ d = mkDecision true (Some (accessReason (blockedName deny tbl))).
Proof.
  induction denylist as [|e rest IH]; [done|]. intros Hscan.
  destruct (denyMatches e sch tbl) eqn:Hm.
  - exists [], e, rest. split; [done|]. split; [by intros ? ?%elem_of_nil|].
    split; [done|].
    destruct (scanDenylist_Some sch tbl [e] d) as (e' & ->%list_elem_of_singleton & _ & ->);
      [|done].
    unfold denyMatches in Hm. simpl in *.
    destruct (truthyOpt (deny_schema e)); by rewrite Hm in *.
  - assert (scanDenylist sch tbl rest = Some d) as Hrest.
    { unfold denyMatches in Hm. simpl in Hscan.
      destruct (truthyOpt (deny_schema e)); by rewrite Hm in Hscan. }
    destruct (IH Hrest) as (before & deny & after & -> & Hbefore & Hdeny & ->).
    exists (e :: before), deny, after. split; [done|]. split; [|done].
    by intros e' [->|?]%elem_of_cons; [|apply Hbefore].
Qed.

Lemma scanReferenced_first referenced denylist defaultSchema d :
  scanReferenced referenced denylist defaultSchema = Some d ->
  ∃ earlier t later,
    referenced = earlier ++ t :: later
    ∧ (∀ u e, u ∈ earlier -> e ∈ denylist ->
         denyMatches e (resolveSchema u defaultSchema) (table u) = false)
    ∧ scanDenylist (resolveSchema t defaultSchema) (table t) denylist = Some d.
Proof.
  induction referenced as [|r rest IH]; [done|]. simpl.
  destruct (scanDenylist (resolveSchema r defaultSchema) (table r) denylist) as [d0|] eqn:Hr.
  - intros [= <-]. exists [], r, rest. split; [done|]. split; [|done].
    by intros ? ? ?%elem_of_nil.
  - intros (earlier & t & later & -> & Hearlier & Ht)%IH.
    exists (r :: earlier), t, later. split; [done|]. split; [|done].
    intros u e [->|Hu]%elem_of_cons He; [|by apply Hearlier].
    by apply (proj1 (scanDenylist_None _ _ _) Hr).
Qed.

(** X13.  The first match wins: when a query is blocked by the denylist,
    the reason names the first referenced table, in the order of the
    extractor, that some entry matches, and the first entry of the denylist
    that matches it. *)
Theorem first_match_gives_the_reason scope sql denylist referenced defaultSchema
    multiDbMode d :
  getReferencedTables scope sql = Ok referenced ->
  isQueryBlockedByDenylist scope sql denylist defaultSchema multiDbMode = Ok d ->
  blocked d = true ->
  reason d ≠ Some unqualifiedReason ->
  ∃ earlier t later before deny after,
    referenced = earlier ++ t :: later
    ∧ denylist = before ++ deny :: after
    ∧ (∀ u e, u ∈ earlier -> e ∈ denylist ->
         denyMatches e (resolveSchema u defaultSchema) (table u) = false)
    ∧ (∀ e, e ∈ before ->
         denyMatches e (resolveSchema t defaultSchema) (table t) = false)
    ∧ denyMatches deny (resolveSchema t defaultSchema) (table t) = true
    ∧ reason d = Some (accessReason (blockedName deny (table t))).
Proof.
  intros Href [[_ ->]|(_ & referenced' & Href' & ->)]%isQueryBlockedByDenylist_inv;
    [done|].
  rewrite Href in Href'. injection Href' as <-.
  unfold decide_referenced. destruct (length referenced =? 0)%nat; [done|].
  destruct (multiDbMode && existsb _ referenced); [done|].
  destruct (scanReferenced referenced denylist defaultSchema) as [d|] eqn:Hscan; [|done].
  simpl. intros _ _.
  apply scanReferenced_first in Hscan as (earlier & t & later & -> & Hearlier & Ht).
  apply scanDenylist_first in Ht as (before & deny & after & -> & Hbefore & Hdeny & ->).
  by exists earlier, t, later, before, deny, after.
Qed.

Lemma first_match_gives_the_reason_witness :
  ∃ earlier t later before deny after,
    [mkRef (Some "app") "orders"; mkRef (Some "app") "users";
     mkRef None "u"; mkRef None "o"] = earlier ++ t :: later
    ∧ [mkDeny None "o"; mkDeny None "users"; mkDeny (Some "app") "users"]
      = before ++ deny :: after
    ∧ (∀ u e, u ∈ earlier ->
         e ∈ [mkDeny None "o"; mkDeny None "users"; mkDeny (Some "app") "users"] ->
         denyMatches e (resolveSchema u MNull) (table u) = false)
    ∧ (∀ e, e ∈ before -> denyMatches e (resolveSchema t MNull) (table t) = false)
    ∧ denyMatches deny (resolveSchema t MNull) (table t) = true
    ∧ reason (mkDecision true
                (Some "Access to table 'users' is blocked by MYSQL_TABLE_DENYLIST"))
      = Some (accessReason (blockedName deny (table t))).
Proof.
  apply (first_match_gives_the_reason sampleScope
           "SELECT * FROM app.orders o JOIN app.users u ON u.id = o.user_id"
           [mkDeny None "o"; mkDeny None "users"; mkDeny (Some "app") "users"]
           [mkRef (Some "app") "orders"; mkRef (Some "app") "users";
            mkRef None "u"; mkRef None "o"] MNull false).
  - vm_compute. reflexivity.
  - vm_compute. reflexivity.
  - reflexivity.
  - discriminate.
Defined.

(** ** The classifier *)

Lemma statementType_lower stmt ty : statementType stmt = Ok ty -> toLowerCase ty = ty.
Proof.
  destruct stmt as [ | |b|n|s|items|fields]; simpl; try by intros [= <-].
  destruct (getProp "type" fields); try by intros [= <-].
  intros [= <-]. apply toLowerCase_idemp.
Qed.

(** X14.  When [getQueryTypes] resolves, its value is a list of exactly
    one type, which is in lower case, and the only call of [log] is the
    one at level [info]. *)
Theorem getQueryTypes_resolves_with_one_lower_case_type scope query types :
  (getQueryTypes scope query).2 = Ok types ->
  (∃ ty, types = [ty] ∧ toLowerCase ty = ty)
  ∧ (getQueryTypes scope query).1
    = [mkLog "info" [LogText "Parsing SQL query: "; LogText query]].
Proof.
  unfold getQueryTypes. destruct (astify scope query) as [ast|]; [|done].
  destruct (statementsOf ast) as [|statement [|]]; try done. simpl.
  destruct (statementType statement) as [ty|] eqn:Hty; [|done].
  simpl. intros [= <-]. split; [|done]. exists ty. split; [done|].
  by eapply statementType_lower.
Qed.

Lemma getQueryTypes_resolves_with_one_lower_case_type_witness :
  (∃ ty, ["select"] = [ty] ∧ toLowerCase ty = ty)
  ∧ (getQueryTypes sampleScope "SELECT * FROM users").1
    = [mkLog "info" [LogText "Parsing SQL query: "; LogText "SELECT * FROM users"]].
Proof.
  apply (getQueryTypes_resolves_with_one_lower_case_type sampleScope
           "SELECT * FROM users" ["select"]).
  vm_compute. reflexivity.
Defined.

(** X15.  When [getQueryTypes] rejects, the message of the error starts
    with [Parsing failed: ], and two calls of [log] at level [error] follow
    the one at level [info]. *)
Theorem getQueryTypes_rejects_with_parsing_failed scope query e :
  (getQueryTypes scope query).2 = Throw e ->
  (∃ cause, message e = "Parsing failed: " +:+ cause)
  ∧ level <$> (getQueryTypes scope query).1 = ["info"; "error"; "error"].
Proof.
  unfold getQueryTypes.
  destruct (match astify scope query with
            | Ok astOrArray =>
                match statementsOf astOrArray with
                | [statement] => mapResult statementType [statement]
                | _ => Throw singleStatementError
                end
            | Throw e0 => Throw e0
            end) as [types|err]; [done|].
  simpl. intros [= <-]. split; [by exists (message err)|done].
Qed.

Lemma getQueryTypes_rejects_with_parsing_failed_witness :
  (∃ cause, message (Error "Parsing failed: Only single-statement SQL is allowed")
            = "Parsing failed: " +:+ cause)
  ∧ level <$> (getQueryTypes sampleScope "SELECT 1; SELECT 2").1
    = ["info"; "error"; "error"].
Proof.
  apply (getQueryTypes_rejects_with_parsing_failed sampleScope "SELECT 1; SELECT 2"
           (Error "Parsing failed: Only single-statement SQL is allowed")).
  vm_compute. reflexivity.
Defined.

(** X16.  A statement the classifier accepts is one the extractor
    accepts: when [getQueryTypes] resolves, [getReferencedTables] returns. *)
Theorem classified_statement_has_referenced_tables scope sql types :
  (getQueryTypes scope sql).2 = Ok types ->
  ∃ referenced, getReferencedTables scope sql = Ok referenced.
Proof.
  unfold getQueryTypes, getReferencedTables.
  destruct (astify scope sql) as [ast|]; [|done].
  destruct (statementsOf ast) as [|statement [|]]; try done.
  intros _. by eexists.
Qed.

Lemma classified_statement_has_referenced_tables_witness :
  ∃ referenced, getReferencedTables sampleScope "SELECT * FROM users" = Ok referenced.
Proof.
  apply (classified_statement_has_referenced_tables sampleScope "SELECT * FROM users"
           ["select"]).
  vm_compute. reflexivity.
Defined.

(** The converse fails: a parser answer [null] is one statement without
    tables for the extractor, and a [TypeError] for the classifier. *)
Lemma null_statement_is_extracted_not_classified :
  let scope := mkScope (fun _ => Ok JNull) false (mkEnv None) in
  getReferencedTables scope "" = Ok []
  ∧ (getQueryTypes scope "").2
    = Throw (Error "Parsing failed: Cannot read properties of null (reading 'type')").
Proof. split; vm_compute; reflexivity. Qed.

(** X17.  Whether the parser answers with the statement or with an array
    holding that one statement makes no difference to the extractor and to
    the classifier. *)
Theorem one_statement_array_is_the_statement scope scope' sql sql' statement :
  (∀ items, statement ≠ JArr items) ->
  astify scope sql = Ok statement ->
  astify scope' sql' = Ok (JArr [statement]) ->
  getReferencedTables scope sql = getReferencedTables scope' sql'
  ∧ (getQueryTypes scope sql).2 = (getQueryTypes scope' sql').2.
Proof.
  intros Hna H H'. unfold getReferencedTables, getQueryTypes. rewrite H, H'.
  assert (statementsOf statement = [statement]) as ->.
  { destruct statement; try done. by destruct (Hna items). }
  simpl. split; [done|]. by destruct (statementType statement).
Qed.

Lemma one_statement_array_is_the_statement_witness :
  getReferencedTables sampleScope "SELECT * FROM users"
  = getReferencedTables
      (mkScope (fun _ => Ok (JArr [selectStarFrom JNull "users"])) false (mkEnv None))
      "SELECT * FROM users;"
  ∧ (getQueryTypes sampleScope "SELECT * FROM users").2
    = (getQueryTypes
         (mkScope (fun _ => Ok (JArr [selectStarFrom JNull "users"])) false (mkEnv None))
         "SELECT * FROM users;").2.
Proof.
  apply (one_statement_array_is_the_statement sampleScope
           (mkScope (fun _ => Ok (JArr [selectStarFrom JNull "users"])) false (mkEnv None))
           "SELECT * FROM users" "SELECT * FROM users;" (selectStarFrom JNull "users")).
  - discriminate.
  - reflexivity.
  - reflexivity.
Defined.

(** ** The schema heuristic *)








Lemma allChars_skipBacktick p s : allChars p s = true -> allChars p (skipBacktick s) = true.
Proof.
  destruct s as [|c r]; simpl; [done|]. intros [??]%andb_prop.
  destruct (isBacktick c); simpl; [done|]. by apply andb_true_intro.
Qed.

Lemma allChars_afterWordRun p s : allChars p s = true -> allChars p (afterWordRun s) = true.
Proof.
  induction s as [|c r IH]; simpl; [done|]. intros [??]%andb_prop.
  destruct (isWordChar c); simpl; [auto|]. by apply andb_true_intro.
Qed.

Lemma matchDbTableAt_needs_dot s :
  allChars (fun c => negb (isDot c)) s = true -> matchDbTableAt s = None.
Proof.
  intros Hs. unfold matchDbTableAt, quotedWord.
  destruct (wordRun (skipBacktick s)); [done|].
  pose proof (allChars_skipBacktick _ _
                (allChars_afterWordRun _ _ (allChars_skipBacktick _ _ Hs))) as Hrest.
  destruct (skipBacktick (afterWordRun (skipBacktick s))) as [|dot rest']; [done|].
  simpl in Hrest. apply andb_prop in Hrest as [Hdot _]. unfold isDot in Hdot.
  apply negb_true_iff in Hdot. by rewrite Hdot.
Qed.

Lemma firstMatch_None matchAt (p : ascii -> bool) s :
  (∀ s', allChars p s' = true -> matchAt s' = None) ->
  allChars p s = true -> firstMatch matchAt s = None.
Proof.
  intros Hnone. induction s as [|c s IH]; intros Hs; simpl.
  - by rewrite (Hnone "").
  - rewrite (Hnone _ Hs). simpl in Hs. apply andb_prop in Hs as [_ ?]. auto.
Qed.

(** X19.  On a query text without a dot and without the letter [u], in
    either case, neither pattern matches and the heuristic answers
    [MYSQL_DB], or [null] when that is unset or empty. *)
Theorem text_without_dot_and_u_gives_the_default scope sql :
  allChars (fun c => negb (isDot c) && negb (eqChar_i "U" c)) sql = true ->
  extractSchemaFromQuery scope sql = qualifier (MYSQL_DB (processEnv scope)).
Proof.
  intros Hsql. unfold extractSchemaFromQuery, qualifier.
  assert (firstMatch matchUseAt sql = None) as ->.
  { eapply firstMatch_None; [|exact Hsql]. intros s' H.
    destruct s' as [|c1 [|c2 [|c3 [|w rest]]]]; try done.
    simpl in H. apply andb_prop in H as [[_ Hu]%andb_prop _].
    apply negb_true_iff in Hu. simpl. by rewrite Hu. }
  assert (firstMatch matchDbTableAt sql = None) as ->.
  { eapply firstMatch_None; [|exact Hsql]. intros s' H.
    apply matchDbTableAt_needs_dot. clear -H.
    induction s' as [|c r IH]; simpl in *; [done|].
    apply andb_prop in H as [[-> _]%andb_prop ?]. auto. }
  by destruct (truthyOpt _ && negb _).
Qed.

Lemma text_without_dot_and_u_gives_the_default_witness :
  extractSchemaFromQuery legacyScope "SELECT * FROM orders"
  = qualifier (MYSQL_DB (processEnv legacyScope)).
Proof.
  apply (text_without_dot_and_u_gives_the_default legacyScope "SELECT * FROM orders").
  vm_compute. reflexivity.
Defined.

(** ** The test client *)

(** X20.  [listTools] always lists the strict read tool first, lists the
    write tool exactly when one of the three flags is the string [true],
    and the description names exactly the enabled write operations. *)
Theorem listTools_advertises_the_enabled_operations env :
  let allowInsert := isTrue (ALLOW_INSERT_OPERATION env) in
  let allowUpdate := isTrue (ALLOW_UPDATE_OPERATION env) in
  let allowDelete := isTrue (ALLOW_DELETE_OPERATION env) in
  name <$> listTools env
  = (if allowInsert || allowUpdate || allowDelete
     then ["mysql_query_read"; "mysql_query_write"]
     else ["mysql_query_read"])
  ∧ ∀ tool, tool ∈ listTools env ->
      includes (description tool) "INSERT" = allowInsert
      ∧ includes (description tool) "UPDATE" = allowUpdate
      ∧ includes (description tool) "DELETE" = allowDelete.
Proof.
  unfold listTools.
  destruct (isTrue (ALLOW_INSERT_OPERATION env)), (isTrue (ALLOW_UPDATE_OPERATION env)),
    (isTrue (ALLOW_DELETE_OPERATION env)); (split; [reflexivity|]);
    intros tool Htool; cbv zeta in Htool; simpl orb in Htool; cbv iota in Htool;
    repeat (apply elem_of_cons in Htool as [->|Htool]; [vm_compute; done|]);
    by apply elem_of_nil in Htool.
Qed.

Lemma listTools_advertises_the_enabled_operations_witness :
  includes
    (description
       (mkTool "mysql_query_write"
          "Run SQL queries against MySQL database with support for: INSERT, DELETE and READ operations"
          sqlInputSchema)) "INSERT" = true
  ∧ includes
      (description
         (mkTool "mysql_query_write"
            "Run SQL queries against MySQL database with support for: INSERT, DELETE and READ operations"
            sqlInputSchema)) "UPDATE" = false
  ∧ includes
      (description
         (mkTool "mysql_query_write"
            "Run SQL queries against MySQL database with support for: INSERT, DELETE and READ operations"
            sqlInputSchema)) "DELETE" = true.
Proof.
  apply (proj2 (listTools_advertises_the_enabled_operations
                  (mkFlagEnv (Some "true") (Some "false") (Some "true")))).
  apply list_elem_of_In. vm_compute. auto.
Defined.

(** ** Edge cases *)

(** X21.  A tree none of whose object nodes has a string-valued [table]
    field references no table; such are [null], the primitive values and
    the empty array and object. *)
Theorem tree_without_table_field_references_nothing ast :
  (∀ fields maybeTable,
     subnode (JObj fields) ast -> getProp "table" fields ≠ JStr maybeTable) ->
  getReferencedTablesFromAst ast = [].
Proof.
  intros Hnone. apply elem_of_nil_inv. intros t Ht.
  apply getReferencedTablesFromAst_elem in Ht as (fields & Hsub & Hown).
  apply ownReference_inv in Hown as (mt & Htable & _). by apply (Hnone fields mt).
Qed.

Lemma tree_without_table_field_references_nothing_witness :
  getReferencedTablesFromAst JNull = [].
Proof.
  apply (tree_without_table_field_references_nothing JNull).
  intros fields maybeTable Hsub. inversion Hsub.
Defined.

Lemma scanReferenced_default referenced denylist defaultSchema defaultSchema' :
  normalizeIdent defaultSchema = normalizeIdent defaultSchema' ->
  scanReferenced referenced denylist defaultSchema
  = scanReferenced referenced denylist defaultSchema'.
Proof.
  intros Heq. induction referenced as [|t rest IH]; simpl; [done|].
  unfold resolveSchema. by rewrite Heq, IH.
Qed.

(** X22.  The default schema counts in its normal form only: two default
    schemas with the same normal form give the same decision. *)
Theorem default_schema_is_normalised scope sql denylist defaultSchema defaultSchema'
    multiDbMode :
  normalizeIdent defaultSchema = normalizeIdent defaultSchema' ->
  isQueryBlockedByDenylist scope sql denylist defaultSchema multiDbMode
  = isQueryBlockedByDenylist scope sql denylist defaultSchema' multiDbMode.
Proof.
  intros Heq. unfold isQueryBlockedByDenylist, decide_referenced.
  destruct (length denylist =? 0)%nat; [done|].
  destruct (getReferencedTables scope sql) as [referenced|]; [|done].
  by rewrite (scanReferenced_default _ _ _ _ Heq).
Qed.

Lemma default_schema_is_normalised_witness :
  isQueryBlockedByDenylist sampleScope "SELECT * FROM users"
    [mkDeny (Some "prod") "users"] (MStr " `Prod` ") false
  = isQueryBlockedByDenylist sampleScope "SELECT * FROM users"
      [mkDeny (Some "prod") "users"] (MStr "prod") false.
Proof.
  apply (default_schema_is_normalised sampleScope "SELECT * FROM users"
           [mkDeny (Some "prod") "users"] (MStr " `Prod` ") (MStr "prod") false).
  vm_compute. reflexivity.
Defined.
